(** * Greedy algorithms: change making, fractional knapsack, activity selection

    A shallow embedding of the three greedy routines of the repository

      - [dar_cambio_voraz]            (src/problema_cambio.py)
      - [mochila_fraccionaria_voraz]  (src/problema_mochila_fraccionaria.py)
      - [seleccion_actividades_voraz] (src/problema_seleccion_actividades.py)

    together with the two small classes [Articulo] and [Actividad], the
    check [verificar_sin_traslape], the reports [mostrar_cambio] and
    [mostrar_resultado_mochila], and the generator
    [generar_actividades_aleatorias].

    Conventions of the embedding.
      - Python integers are [Z]; [//] and [%] are [Z.div] and [Z.modulo]
        (both floor towards minus infinity, as in Python), guarded by an
        explicit [ZeroDivisionError].
      - The knapsack is read twice. Module [Py] reads it over the numbers
        of the interpreter: [int] and binary64 [float], with the rounding,
        the overflow and the exceptions of their operations; what is said
        of values, weights, fractions and of the constructor of [Articulo]
        is said there. Outside [Py] the same loop is read over exact
        rationals [Q]: this serves what does not depend on the arithmetic
        (arguments that are not validated, the order that [sorted] fixes)
        and is the exact arithmetic that a run without rounding is
        compared with.
      - A raised exception is a value of [py], the result type of every
        operation that can raise.
      - The builtin [sorted] is stable; it is modelled by a stable insertion
        sort, and its contract is stated separately ([orden_estable]).
      - A [dict] is an association list in insertion order.
      - A report is the list of the lines it prints, each line with the
        values formatted into it.
      - The module [random] is a parameter: a state and a draw that stays
        within the range asked for. *)

From Stdlib Require Import ZArith QArith Qabs List Bool Lia Lra Psatz.
From Stdlib Require Import Permutation Sorted String DecimalString.
From Stdlib Require PrimFloat SpecFloat FloatOps.
Import ListNotations.


(* ================================================================== *)
(** * Part I: the program                                              *)
(* ================================================================== *)

(** ** Exceptions *)

Inductive excepcion : Type :=
| ZeroDivisionError
| ValueError (mensaje : string).

Inductive py (A : Type) : Type :=
| Ok (a : A)
| Raise (e : excepcion).

Arguments Ok {A} a.
Arguments Raise {A} e.

Definition py_bind {A B : Type} (c : py A) (k : A -> py B) : py B :=
  match c with
  | Ok a => k a
  | Raise e => Raise e
  end.

Notation "x <- c ;; k" := (py_bind c (fun x => k))
  (at level 61, c at next level, right associativity).

(** ** The builtin [sorted]

    [py_sorted leb l] is [sorted(l, key=...)] where [leb a b] compares the
    keys of [a] and [b]. Each element is put in front of the first element of
    the already sorted tail that it does not exceed, so elements with equal
    keys keep the order they have in [l]. With [reverse=True] the comparison
    is flipped and ties still keep their input order. *)

Section PySorted.
Context {A : Type} (leb : A -> A -> bool).

Fixpoint py_insert (x : A) (l : list A) : list A :=
  match l with
  | [] => [x]
  | y :: t => if leb x y then x :: y :: t else y :: py_insert x t
  end.

Definition py_sorted (l : list A) : list A := fold_right py_insert [] l.

(** Two elements tie when neither key is smaller. *)
Definition empata (x y : A) : bool := leb x y && leb y x.

(** The contract of [sorted]: the output is ordered and, for every
    element, the elements tying with it appear exactly as in the input
    (so the output is a rearrangement of the input that never swaps two
    elements with equal keys). *)
Definition orden_estable (l l' : list A) : Prop :=
  StronglySorted (fun a b => leb a b = true) l' /\
  forall x, filter (empata x) l' = filter (empata x) l.
End PySorted.

(** ** Integer division of Python *)

Local Open Scope Z_scope.

Definition py_floordiv (a b : Z) : py Z :=
  if b =? 0 then Raise ZeroDivisionError else Ok (a / b).

Definition py_mod (a b : Z) : py Z :=
  if b =? 0 then Raise ZeroDivisionError else Ok (a mod b).

(** ** Dictionaries with integer keys, in insertion order *)

Definition dict : Type := list (Z * Z).

(** [d[k] = v]: an existing key keeps its place, a new key goes last. *)
Fixpoint dict_set (d : dict) (k v : Z) : dict :=
  match d with
  | [] => [(k, v)]
  | (k', v') :: t =>
      if k' =? k then (k, v) :: t else (k', v') :: dict_set t k v
  end.

(** [sum(moneda * cantidad for moneda, cantidad in d.items())] *)
Definition suma_ponderada (d : dict) : Z :=
  fold_right (fun kv acc => fst kv * snd kv + acc) 0 d.

(** The number of coins: [sum(d.values())]. *)
Definition total_monedas (d : dict) : Z :=
  fold_right (fun kv acc => snd kv + acc) 0 d.

(** ** problema_cambio.py *)

(** The body of [for moneda in monedas_ordenadas], with the two local
    variables [resultado] and [cantidad_restante] threaded through. *)
Fixpoint cambio_bucle (monedas_ordenadas : list Z) (resultado : dict)
    (cantidad_restante : Z) : py dict :=
  match monedas_ordenadas with
  | [] => Ok resultado
  | moneda :: resto =>
      if cantidad_restante >=? moneda then
        cantidad_monedas <- py_floordiv cantidad_restante moneda ;;
        restante' <- py_mod cantidad_restante moneda ;;
        cambio_bucle resto (dict_set resultado moneda cantidad_monedas) restante'
      else cambio_bucle resto resultado cantidad_restante
  end.

(** [sorted(monedas, reverse=True)] *)
Definition mayor_a_menor (a b : Z) : bool := b <=? a.

Definition dar_cambio_voraz (cantidad : Z) (monedas : list Z) : py dict :=
  let monedas_ordenadas := py_sorted mayor_a_menor monedas in
  cambio_bucle monedas_ordenadas [] cantidad.

(** The default value of the parameter [monedas]. *)
Definition monedas_por_defecto : list Z := [25; 10; 5; 1].

(** What a change for an amount is, for the comparison with the greedy
    result: counts, none negative, of coins of the given denominations. *)
Definition representacion (monedas : list Z) (cantidad : Z) (d : dict) : Prop :=
  Forall (fun kv => In (fst kv) monedas /\ 0 <= snd kv) d /\
  suma_ponderada d = cantidad.

(** ** problema_mochila_fraccionaria.py *)

(** The loop over exact rationals. The numbers of the interpreter, with
    their rounding and [OverflowError], are those of module [Py] below. *)

(** True division [a / b], exact. *)
Definition py_truediv (a b : Q) : py Q :=
  if Qeq_bool b 0 then Raise ZeroDivisionError else Ok (a / b)%Q.

(** The fields of the class [Articulo]. *)
Module Articulo.
Local Open Scope Q_scope.

Record t : Type := Build {
  peso : Q;
  valor : Q;
  nombre : string;
  ratio : Q
}.
End Articulo.

Section Mochila.
Local Open Scope Q_scope.
Import Articulo.

(** The body of [for articulo in articulos_ordenados], with the locals
    [mochila], [capacidad_restante] and [valor_total] threaded through;
    [break] returns what has been accumulated. *)
Fixpoint mochila_bucle (articulos_ordenados : list Articulo.t)
    (mochila : list (Articulo.t * Q)) (capacidad_restante valor_total : Q)
    : py (list (Articulo.t * Q) * Q) :=
  match articulos_ordenados with
  | [] => Ok (mochila, valor_total)
  | articulo :: resto =>
      if Qle_bool capacidad_restante 0 then Ok (mochila, valor_total)
      else if Qle_bool (peso articulo) capacidad_restante then
        mochila_bucle resto (mochila ++ [(articulo, 1)])
          (capacidad_restante - peso articulo) (valor_total + valor articulo)
      else
        fraccion <- py_truediv capacidad_restante (peso articulo) ;;
        mochila_bucle resto (mochila ++ [(articulo, fraccion)])
          0 (valor_total + valor articulo * fraccion)
  end.

(** [sorted(articulos, key=lambda x: x.ratio, reverse=True)] *)
Definition mayor_ratio (a b : Articulo.t) : bool :=
  Qle_bool (ratio b) (ratio a).

Definition mochila_fraccionaria_voraz (articulos : list Articulo.t)
    (capacidad : Q) : py (list (Articulo.t * Q) * Q) :=
  let articulos_ordenados := py_sorted mayor_ratio articulos in
  mochila_bucle articulos_ordenados [] capacidad 0.

(** Weight and value of a selection, as [mostrar_resultado_mochila]
    adds them up. *)
Definition peso_usado (m : list (Articulo.t * Q)) : Q :=
  fold_right (fun af acc => peso (fst af) * snd af + acc) 0 m.

Definition valor_obtenido (m : list (Articulo.t * Q)) : Q :=
  fold_right (fun af acc => valor (fst af) * snd af + acc) 0 m.

Definition peso_total (l : list Articulo.t) : Q :=
  fold_right (fun a acc => peso a + acc) 0 l.

(** An assignment gives every item of [articulos], in order, a fraction
    between 0 and 1; it fits when the weight it takes is within the
    capacity. *)
Definition asignacion (articulos : list Articulo.t) (xs : list Q) : Prop :=
  List.length xs = List.length articulos /\ Forall (fun x => 0 <= x /\ x <= 1) xs.

Definition cabe (articulos : list Articulo.t) (xs : list Q) (capacidad : Q)
    : Prop :=
  peso_usado (combine articulos xs) <= capacidad.

(** No assignment that fits is worth strictly more than [total]. *)
Definition optimo_fraccionario (articulos : list Articulo.t)
    (capacidad total : Q) : Prop :=
  forall xs, asignacion articulos xs -> cabe articulos xs capacidad ->
    ~ (total < valor_obtenido (combine articulos xs)).
End Mochila.

(** ** problema_seleccion_actividades.py *)

(** The class [Actividad]; [init] is its [__init__]. *)
Module Actividad.
Record t : Type := Build {
  inicio : Z;
  fin : Z;
  nombre : string;
  duracion : Z
}.

Definition init (inicio fin : Z) (nombre : string) : py t :=
  if inicio >=? fin then
    Raise (ValueError "El tiempo de inicio debe ser menor que el tiempo de fin")
  else Ok (Build inicio fin nombre (fin - inicio)).

Definition traslapa_con (self otra : t) : bool :=
  negb ((fin self <=? inicio otra) || (fin otra <=? inicio self)).

(** [a] is an object as its constructor leaves it. *)
Definition construida (a : t) : Prop :=
  init (inicio a) (fin a) (nombre a) = Ok a.
End Actividad.

Import Actividad(inicio, fin, duracion, traslapa_con).

(** The body of [for actividad in actividades_ordenadas], with the locals
    [seleccionadas] and [ultimo_fin] threaded through. *)
Fixpoint seleccion_bucle (actividades_ordenadas seleccionadas : list Actividad.t)
    (ultimo_fin : Z) : list Actividad.t :=
  match actividades_ordenadas with
  | [] => seleccionadas
  | actividad :: resto =>
      if inicio actividad >=? ultimo_fin then
        seleccion_bucle resto (seleccionadas ++ [actividad]) (fin actividad)
      else seleccion_bucle resto seleccionadas ultimo_fin
  end.

(** [sorted(actividades, key=lambda x: x.fin)] *)
Definition menor_fin (a b : Actividad.t) : bool := fin a <=? fin b.

Definition seleccion_actividades_voraz (actividades : list Actividad.t)
    : list Actividad.t :=
  match actividades with
  | [] => []
  | _ =>
      let actividades_ordenadas := py_sorted menor_fin actividades in
      seleccion_bucle actividades_ordenadas [] (-1)
  end.

(** [verificar_sin_traslape]: no two entries, at distinct positions,
    overlap. *)
Fixpoint verificar_sin_traslape (actividades : list Actividad.t) : bool :=
  match actividades with
  | [] => true
  | a :: resto =>
      forallb (fun b => negb (traslapa_con a b)) resto
      && verificar_sin_traslape resto
  end.

(** [s] picks entries of [l], each at most as often as [l] has it. *)
Definition subconjunto (s l : list Actividad.t) : Prop :=
  exists resto, Permutation (s ++ resto) l.


(** ** Quantities the loops compute but do not return

    They name, for the statements of Part II, what a run of
    [cambio_bucle] on remaining amount [r] adds to the dictionary, what it
    leaves unpaid, and how many coins it hands out. *)

Fixpoint entradas (monedas_ordenadas : list Z) (r : Z) : dict :=
  match monedas_ordenadas with
  | [] => []
  | moneda :: resto =>
      if r >=? moneda then (moneda, r / moneda) :: entradas resto (r mod moneda)
      else entradas resto r
  end.

Fixpoint restante_final (monedas_ordenadas : list Z) (r : Z) : Z :=
  match monedas_ordenadas with
  | [] => r
  | moneda :: resto =>
      if r >=? moneda then restante_final resto (r mod moneda)
      else restante_final resto r
  end.

Fixpoint monedas_usadas (monedas_ordenadas : list Z) (r : Z) : Z :=
  match monedas_ordenadas with
  | [] => 0
  | moneda :: resto => r / moneda + monedas_usadas resto (r mod moneda)
  end.

(** What a run of [mochila_bucle] on remaining capacity [c] appends to
    [mochila]. *)
Fixpoint tomados (articulos_ordenados : list Articulo.t) (c : Q)
    : list (Articulo.t * Q) :=
  match articulos_ordenados with
  | [] => []
  | articulo :: resto =>
      if Qle_bool c 0 then []
      else if Qle_bool (Articulo.peso articulo) c then
        (articulo, 1%Q) :: tomados resto (c - Articulo.peso articulo)%Q
      else (articulo, (c / Articulo.peso articulo)%Q) :: tomados resto 0%Q
  end.

(** The value of [a] per unit of weight is at most [rho], and the value
    per unit of weight of [a] is at least that of [b], both written
    without division. *)
Definition acotado (rho : Q) (a : Articulo.t) : Prop :=
  (Articulo.valor a <= rho * Articulo.peso a)%Q.

Definition rinde_mas (a b : Articulo.t) : Prop :=
  (Articulo.valor b * Articulo.peso a <= Articulo.valor a * Articulo.peso b)%Q.

(** What a run of [seleccion_bucle] from [ultimo_fin] appends to
    [seleccionadas]. *)
Fixpoint elegidas (actividades_ordenadas : list Actividad.t) (ultimo_fin : Z)
    : list Actividad.t :=
  match actividades_ordenadas with
  | [] => []
  | actividad :: resto =>
      if inicio actividad >=? ultimo_fin then
        actividad :: elegidas resto (fin actividad)
      else elegidas resto ultimo_fin
  end.

(** [a] is over before [b] begins. *)
Definition antes (a b : Actividad.t) : Prop := fin a <= inicio b.

(** ** The reports

    A printed line is modelled by its kind and by the values formatted
    into it; the text around them and the padding of the columns are left
    out. A report is the list of its lines in the order they are printed. *)





(** ** Generated activities

    The module [random] is outside the repository. Its state, the state
    [seed] installs, and the number [randint] draws from a state are
    parameters; [randint(a, b)] raises [ValueError] when [b < a], as the
    library does, and otherwise returns the number drawn together with the
    next state. *)

(** [str(z)] for an integer. *)
Definition py_str (z : Z) : string :=
  DecimalString.NilZero.string_of_int (Z.to_int z).

Section Aleatorio.
Variable rng : Type.
Variable semilla : Z -> rng.
Variable sortear : rng -> Z -> Z -> Z * rng.
Variable mensaje_rango : Z -> Z -> string.

Definition randint (s : rng) (a b : Z) : py (Z * rng) :=
  if b <? a then Raise (ValueError (mensaje_rango a b))
  else Ok (sortear s a b).

(** The body of [for i in range(n)], for the [k] values of [i] still to
    come, with the state of [random] and the local [actividades] threaded
    through. *)
Fixpoint generar_actividades_bucle (k : nat) (i : Z) (tiempo_max : Z)
    (s : rng) (actividades : list Actividad.t)
    : py (list Actividad.t * rng) :=
  match k with
  | O => Ok (actividades, s)
  | S k' =>
      r1 <- randint s 0 (tiempo_max - 1) ;;
      let '(inicio, s1) := r1 in
      r2 <- randint s1 (inicio + 1) tiempo_max ;;
      let '(fin, s2) := r2 in
      let nombre := ("Actividad " ++ py_str (i + 1))%string in
      actividad <- Actividad.init inicio fin nombre ;;
      generar_actividades_bucle k' (i + 1) tiempo_max s2
        (actividades ++ [actividad])
  end.

(** Returns the list together with the state [random] is left in. *)
Definition generar_actividades_aleatorias (n tiempo_max : Z)
    : py (list Actividad.t * rng) :=
  generar_actividades_bucle (Z.to_nat n) 0 tiempo_max (semilla 42) [].
End Aleatorio.

(** ** The knapsack on the numbers Python computes with

    Module [Py] reads the source over the numbers the interpreter has: an argument is an [int] or a [float], a [float] is a
    binary64 number, and every operation rounds, overflows or raises as
    the interpreter does it.

      - [exacto] is the value a number stands for; comparisons are
        comparisons of these values, which is how Python compares [int]
        with [int], [float] with [float] and [int] with [float]; a NaN
        compares false with everything.
      - Arithmetic between two [int] is exact, except [/], which returns
        the [float] nearest to the quotient. As soon as one operand is a
        [float] the other becomes one too, by rounding to nearest, and the
        operation is the binary64 one.
      - [int] too large for a [float] raise [OverflowError]; results of
        [float] operations that are too large are infinite. *)

Module Py.

Inductive excepcion : Type :=
| ZeroDivisionError
| OverflowError.

Inductive resultado (A : Type) : Type :=
| Ok (a : A)
| Raise (e : excepcion).

Arguments Ok {A} a.
Arguments Raise {A} e.

Definition bind {A B : Type} (c : resultado A) (k : A -> resultado B)
    : resultado B :=
  match c with
  | Ok a => k a
  | Raise e => Raise e
  end.

Notation "x <-- c ;; k" := (bind c (fun x => k))
  (at level 61, c at next level, right associativity).

Inductive numero : Type :=
| Entero (z : Z)
| Flotante (f : PrimFloat.float).

(** *** The value of a number *)

Inductive valor_exacto : Type :=
| Finito (q : Q)
| Infinito (negativo : bool)
| NaN.

Definition exacto_de_sf (x : SpecFloat.spec_float) : valor_exacto :=
  match x with
  | SpecFloat.S754_zero _ => Finito 0%Q
  | SpecFloat.S754_infinity s => Infinito s
  | SpecFloat.S754_nan => NaN
  | SpecFloat.S754_finite s m e =>
      let m' := if s then Z.neg m else Z.pos m in
      match e with
      | Z0 => Finito (inject_Z m')
      | Z.pos p => Finito (inject_Z (m' * Z.pos (2 ^ p)))
      | Z.neg p => Finito (Qmake m' (2 ^ p))
      end
  end.

Definition exacto (a : numero) : valor_exacto :=
  match a with
  | Entero z => Finito (inject_Z z)
  | Flotante f => exacto_de_sf (FloatOps.Prim2SF f)
  end.

(** *** Comparisons: [a < b], [a <= b], [a > b] *)

Definition comparar (a b : numero) : option comparison :=
  match exacto a, exacto b with
  | NaN, _ | _, NaN => None
  | Finito x, Finito y => Some (x ?= y)%Q
  | Infinito s, Infinito s' =>
      Some (if Bool.eqb s s' then Eq else if s then Lt else Gt)
  | Infinito s, Finito _ => Some (if s then Lt else Gt)
  | Finito _, Infinito s => Some (if s then Gt else Lt)
  end.

Definition lt (a b : numero) : bool :=
  match comparar a b with Some Lt => true | _ => false end.

Definition le (a b : numero) : bool :=
  match comparar a b with Some Lt | Some Eq => true | _ => false end.

Definition gt (a b : numero) : bool := lt b a.

(** *** Arithmetic *)

(** The [float] nearest to an [int], ties to even. *)
Definition a_flotante (a : numero) : resultado PrimFloat.float :=
  match a with
  | Flotante f => Ok f
  | Entero z =>
      match SpecFloat.binary_normalize FloatOps.prec FloatOps.emax z 0 false with
      | SpecFloat.S754_infinity _ => Raise OverflowError
      | sf => Ok (FloatOps.SF2Prim sf)
      end
  end.

(** The [float] nearest to the quotient of two [int], ties to even: the
    quotient is taken to at least 55 binary digits, and the position of
    what is left against one half decides the rounding. *)
Definition cociente_redondeado (x y : Z) : SpecFloat.spec_float :=
  let s := negb (Bool.eqb (x <? 0) (y <? 0)) in
  let n := Z.abs x in
  let d := Z.abs y in
  let k := Z.max 0 (56 + Z.log2 d - Z.log2 n) in
  let q := (n * 2 ^ k) / d in
  let r := (n * 2 ^ k) mod d in
  let l :=
    if r =? 0 then SpecFloat.loc_Exact
    else SpecFloat.loc_Inexact (2 * r ?= d) in
  if n =? 0 then SpecFloat.S754_zero s
  else SpecFloat.binary_round_aux FloatOps.prec FloatOps.emax s q (- k) l.

(** [b == 0], the test that guards a division. An [int] that is not 0
    does not become 0.0, so the test on the operand is the test on the
    [float] it becomes. *)
Definition es_cero (b : numero) : bool :=
  match b with
  | Entero z => z =? 0
  | Flotante f =>
      match FloatOps.Prim2SF f with
      | SpecFloat.S754_zero _ => true
      | _ => false
      end
  end.

(** [a / b] *)
Definition truediv (a b : numero) : resultado numero :=
  match a, b with
  | Entero x, Entero y =>
      if es_cero b then Raise ZeroDivisionError
      else
        match cociente_redondeado x y with
        | SpecFloat.S754_infinity _ => Raise OverflowError
        | sf => Ok (Flotante (FloatOps.SF2Prim sf))
        end
  | _, _ =>
      x <-- a_flotante a ;;
      y <-- a_flotante b ;;
      if es_cero b then Raise ZeroDivisionError
      else Ok (Flotante (PrimFloat.div x y))
  end.

(** [a + b], [a - b], [a * b] *)
Definition add (a b : numero) : resultado numero :=
  match a, b with
  | Entero x, Entero y => Ok (Entero (x + y))
  | _, _ =>
      x <-- a_flotante a ;; y <-- a_flotante b ;;
      Ok (Flotante (PrimFloat.add x y))
  end.

Definition sub (a b : numero) : resultado numero :=
  match a, b with
  | Entero x, Entero y => Ok (Entero (x - y))
  | _, _ =>
      x <-- a_flotante a ;; y <-- a_flotante b ;;
      Ok (Flotante (PrimFloat.sub x y))
  end.

Definition mul (a b : numero) : resultado numero :=
  match a, b with
  | Entero x, Entero y => Ok (Entero (x * y))
  | _, _ =>
      x <-- a_flotante a ;; y <-- a_flotante b ;;
      Ok (Flotante (PrimFloat.mul x y))
  end.

(** *** problema_mochila_fraccionaria.py *)

(** The literals [0], [0.0] and [1.0] of the source. *)
Definition cero : numero := Entero 0.
Definition cero_punto_cero : numero := Flotante PrimFloat.zero.
Definition uno_punto_cero : numero := Flotante PrimFloat.one.

(** The class [Articulo]; [init] is its [__init__]. *)
Module Articulo.
Record t : Type := Build {
  peso : numero;
  valor : numero;
  nombre : string;
  ratio : numero
}.

Definition init (peso valor : numero) (nombre : string) : resultado t :=
  ratio <-- (if gt peso cero then truediv valor peso else Ok cero) ;;
  Ok (Build peso valor nombre ratio).
End Articulo.

(** The body of [for articulo in articulos_ordenados], with the locals
    [mochila], [capacidad_restante] and [valor_total] threaded through;
    [break] returns what has been accumulated. *)
Fixpoint mochila_bucle (articulos_ordenados : list Articulo.t)
    (mochila : list (Articulo.t * numero))
    (capacidad_restante valor_total : numero)
    : resultado (list (Articulo.t * numero) * numero) :=
  match articulos_ordenados with
  | [] => Ok (mochila, valor_total)
  | articulo :: resto =>
      if le capacidad_restante cero then Ok (mochila, valor_total)
      else if le (Articulo.peso articulo) capacidad_restante then
        valor_total' <-- add valor_total (Articulo.valor articulo) ;;
        restante' <-- sub capacidad_restante (Articulo.peso articulo) ;;
        mochila_bucle resto (mochila ++ [(articulo, uno_punto_cero)])
          restante' valor_total'
      else
        fraccion <-- truediv capacidad_restante (Articulo.peso articulo) ;;
        tomado <-- mul (Articulo.valor articulo) fraccion ;;
        valor_total' <-- add valor_total tomado ;;
        mochila_bucle resto (mochila ++ [(articulo, fraccion)])
          cero valor_total'
  end.

(** [sorted(articulos, key=lambda x: x.ratio, reverse=True)]: an item goes
    in front of the first item whose ratio its own is not less than. The
    keys are compared with [<] only. When no ratio is a NaN they are
    totally ordered and this is the order [sorted] returns: decreasing
    ratios, items of equal ratio in the order of the input. *)
Definition mayor_ratio (a b : Articulo.t) : bool :=
  negb (lt (Articulo.ratio a) (Articulo.ratio b)).

Definition mochila_fraccionaria_voraz (articulos : list Articulo.t)
    (capacidad : numero) : resultado (list (Articulo.t * numero) * numero) :=
  let articulos_ordenados := py_sorted mayor_ratio articulos in
  mochila_bucle articulos_ordenados [] capacidad cero_punto_cero.

(** What is left of a capacity after the weights of [l] have been
    subtracted from it, one after the other. *)
Fixpoint capacidad_tras (c : numero) (l : list Articulo.t)
    : resultado numero :=
  match l with
  | [] => Ok c
  | a :: resto => c' <-- sub c (Articulo.peso a) ;; capacidad_tras c' resto
  end.

(** *** Runs without rounding

    [finito] numbers stand for a rational, [real]. A run is exact when
    every number it meets is finite and every sum, difference, product and
    quotient it computes is the sum, difference, product and quotient of
    the rationals. *)

Definition finito (a : numero) : bool :=
  match exacto a with Finito _ => true | _ => false end.

Definition real (a : numero) : Q :=
  match exacto a with Finito q => q | _ => 0%Q end.

(** The ratio of [a] is not below that of [b], as rationals: between
    finite ratios, the comparison [sorted] orders the items by. *)
Definition ratio_no_menor (a b : Articulo.t) : bool :=
  Qle_bool (real (Articulo.ratio b)) (real (Articulo.ratio a)).

Definition suma_exacta (a b : numero) : option numero :=
  match add a b with
  | Ok c => if finito c && Qeq_bool (real c) (real a + real b) then Some c
            else None
  | Raise _ => None
  end.

Definition resta_exacta (a b : numero) : option numero :=
  match sub a b with
  | Ok c => if finito c && Qeq_bool (real c) (real a - real b) then Some c
            else None
  | Raise _ => None
  end.

Definition producto_exacto (a b : numero) : option numero :=
  match mul a b with
  | Ok c => if finito c && Qeq_bool (real c) (real a * real b) then Some c
            else None
  | Raise _ => None
  end.

Definition cociente_exacto (a b : numero) : option numero :=
  match truediv a b with
  | Ok c => if finito c && Qeq_bool (real c * real b) (real a) then Some c
            else None
  | Raise _ => None
  end.

(** The ratio of the item is the quotient of its value by its weight. *)
Definition ratio_exacto (a : Articulo.t) : bool :=
  finito (Articulo.peso a) && finito (Articulo.valor a)
  && finito (Articulo.ratio a)
  && Qeq_bool (real (Articulo.ratio a) * real (Articulo.peso a))
       (real (Articulo.valor a)).

(** The run of [mochila_bucle] from [c] and [v] is exact. *)
Fixpoint corrida_exacta (articulos_ordenados : list Articulo.t)
    (c v : numero) : bool :=
  match articulos_ordenados with
  | [] => true
  | articulo :: resto =>
      if le c cero then true
      else if le (Articulo.peso articulo) c then
        match suma_exacta v (Articulo.valor articulo),
              resta_exacta c (Articulo.peso articulo) with
        | Some v', Some c' => corrida_exacta resto c' v'
        | _, _ => false
        end
      else
        match cociente_exacto c (Articulo.peso articulo) with
        | Some fraccion =>
            match producto_exacto (Articulo.valor articulo) fraccion with
            | Some tomado =>
                match suma_exacta v tomado with
                | Some v' => corrida_exacta resto cero v'
                | None => false
                end
            | None => false
            end
        | None => false
        end
  end.

(** *** The report [mostrar_resultado_mochila]

    A report is the list of the lines it prints, one entry for each call
    of [print], with the numbers formatted into it. A number formatted
    with [.2f] or [.2%] is printed from the [float] it converts to;
    [formato] is that conversion, which raises [OverflowError] for an
    [int] beyond the range of [float]. *)







End Py.

(** An item of [Py] read over the rationals. *)
Definition racional (a : Py.Articulo.t) : Articulo.t :=
  Articulo.Build (Py.real (Py.Articulo.peso a)) (Py.real (Py.Articulo.valor a))
    (Py.Articulo.nombre a) (Py.real (Py.Articulo.ratio a)).

(** An entry of the selection read over the rationals. *)
Definition tomado_racional (p : Py.Articulo.t * Py.numero) : Articulo.t * Q :=
  (racional (fst p), Py.real (snd p)).
(* ================================================================== *)
(** * Part II: properties                                              *)
(* ================================================================== *)

(** ** The builtin [sorted] meets its contract, and the contract leaves
       no freedom *)

Section PySortedFacts.
Context {A : Type} (leb : A -> A -> bool).
Hypothesis leb_total : forall x y, leb x y = true \/ leb y x = true.
Hypothesis leb_trans :
  forall x y z, leb x y = true -> leb y z = true -> leb x z = true.

Local Abbreviation ordenada := (StronglySorted (fun a b => leb a b = true)).

Lemma py_insert_perm x l : Permutation (py_insert leb x l) (x :: l).
Proof.
  induction l as [|y t IH]; simpl; [reflexivity|].
  destruct (leb x y); [reflexivity|].
  rewrite IH. apply perm_swap.
Qed.

Lemma py_sorted_perm l : Permutation (py_sorted leb l) l.
Proof.
  induction l as [|x t IH]; simpl; [reflexivity|].
  rewrite py_insert_perm. now constructor.
Qed.

Lemma py_insert_ordenada x l : ordenada l -> ordenada (py_insert leb x l).
Proof.
  induction 1 as [|y t Hs IH Hy]; simpl.
  - repeat constructor.
  - destruct (leb x y) eqn:E.
    + constructor; [now constructor|].
      constructor; [exact E|].
      rewrite Forall_forall in *. intros z Hz. eauto.
    + constructor; [exact IH|].
      rewrite Forall_forall in *. intros z Hz.
      apply (Permutation_in _ (py_insert_perm x t)) in Hz.
      destruct Hz as [<-|Hz]; [|auto].
      destruct (leb_total x y) as [H|H]; congruence.
Qed.

Lemma py_sorted_ordenada l : ordenada (py_sorted leb l).
Proof.
  induction l; simpl; [constructor | now apply py_insert_ordenada].
Qed.

Lemma empata_trans_l x y z :
  empata leb x y = true -> empata leb x z = empata leb y z.
Proof.
  unfold empata. rewrite andb_true_iff. intros [Hxy Hyx].
  destruct (leb y z) eqn:Eyz, (leb z y) eqn:Ezy; simpl.
  - now rewrite (leb_trans _ _ _ Hxy Eyz), (leb_trans _ _ _ Ezy Hyx).
  - rewrite (leb_trans _ _ _ Hxy Eyz). simpl.
    destruct (leb z x) eqn:E; [|reflexivity].
    now rewrite (leb_trans _ _ _ E Hxy) in Ezy.
  - destruct (leb x z) eqn:E; [|reflexivity].
    now rewrite (leb_trans _ _ _ Hyx E) in Eyz.
  - destruct (leb x z) eqn:E; [|reflexivity].
    now rewrite (leb_trans _ _ _ Hyx E) in Eyz.
Qed.

(** Insertion passes only elements with a strictly smaller key, so the
    elements tying with any [z] are met in the same order. *)
Lemma py_insert_filter z x l :
  filter (empata leb z) (py_insert leb x l) = filter (empata leb z) (x :: l).
Proof.
  induction l as [|y t IH]; [reflexivity|].
  simpl py_insert. destruct (leb x y) eqn:E; [reflexivity|].
  cbn [filter] in *. rewrite IH.
  destruct (empata leb z x) eqn:Ezx, (empata leb z y) eqn:Ezy;
    try reflexivity.
  exfalso.
  assert (Hxz : empata leb x z = true).
  { unfold empata in *. now rewrite andb_comm. }
  pose proof (empata_trans_l x z y Hxz) as H.
  rewrite Ezy in H. unfold empata in H. now rewrite E in H.
Qed.

Lemma py_sorted_filter z l :
  filter (empata leb z) (py_sorted leb l) = filter (empata leb z) l.
Proof.
  induction l as [|x t IH]; [reflexivity|].
  simpl py_sorted. rewrite py_insert_filter. simpl. now rewrite IH.
Qed.

Lemma py_sorted_orden_estable l : orden_estable leb l (py_sorted leb l).
Proof.
  split; [apply py_sorted_ordenada | intro; apply py_sorted_filter].
Qed.

Lemma empata_refl x : empata leb x x = true.
Proof.
  unfold empata. destruct (leb_total x x) as [H|H]; now rewrite H.
Qed.

Lemma filter_empata_In x y l :
  In y (filter (empata leb x) l) -> In y l /\ empata leb x y = true.
Proof. apply filter_In. Qed.

(** Two ordered lists with the same tie classes, in the same order within
    each class, are the same list. *)
Lemma ordenada_unica l1 : forall l2,
  ordenada l1 -> ordenada l2 ->
  (forall x, filter (empata leb x) l1 = filter (empata leb x) l2) ->
  l1 = l2.
Proof.
  induction l1 as [|a t1 IH]; intros l2 H1 H2 Hf.
  - destruct l2 as [|b t2]; [reflexivity|].
    specialize (Hf b). simpl in Hf. now rewrite empata_refl in Hf.
  - destruct l2 as [|b t2].
    { specialize (Hf a). simpl in Hf. now rewrite empata_refl in Hf. }
    inversion H1 as [|? ? Hs1 Ha]; subst.
    inversion H2 as [|? ? Hs2 Hb]; subst.
    rewrite Forall_forall in Ha, Hb.
    assert (Eab : empata leb a b = true).
    { unfold empata. apply andb_true_iff. split.
      - assert (Hin : In b (filter (empata leb b) (a :: t1))).
        { rewrite (Hf b). simpl. rewrite empata_refl. now left. }
        apply filter_empata_In in Hin. destruct Hin as [[->|Hin] _].
        + destruct (leb_total b b); assumption.
        + auto.
      - assert (Hin : In a (filter (empata leb a) (b :: t2))).
        { rewrite <- (Hf a). simpl. rewrite empata_refl. now left. }
        apply filter_empata_In in Hin. destruct Hin as [[->|Hin] _].
        + destruct (leb_total a a); assumption.
        + auto. }
    assert (a = b).
    { pose proof (Hf a) as H. simpl in H.
      rewrite empata_refl, Eab in H. now inversion H. }
    subst b. f_equal. apply IH; try assumption.
    intro x. specialize (Hf x). simpl in Hf.
    destruct (empata leb x a); [now inversion Hf | assumption].
Qed.

Lemma orden_estable_unico l l' :
  orden_estable leb l l' -> l' = py_sorted leb l.
Proof.
  intros [Hs Hf]. apply ordenada_unica;
    [assumption | apply py_sorted_ordenada |].
  intro x. now rewrite Hf, py_sorted_filter.
Qed.

End PySortedFacts.

(** Sorting by a key read through [f] and then applying [f] is sorting the
    images. *)
Lemma py_insert_map {A B : Type} (f : A -> B) (leb : B -> B -> bool) x l :
  map f (py_insert (fun p q => leb (f p) (f q)) x l)
  = py_insert leb (f x) (map f l).
Proof.
  induction l as [|y t IH]; [reflexivity|].
  simpl. destruct (leb (f x) (f y)); [reflexivity|].
  simpl. now rewrite IH.
Qed.

Lemma py_sorted_map {A B : Type} (f : A -> B) (leb : B -> B -> bool) l :
  map f (py_sorted (fun p q => leb (f p) (f q)) l) = py_sorted leb (map f l).
Proof.
  induction l as [|x t IH]; [reflexivity|].
  simpl. now rewrite py_insert_map, IH.
Qed.

(** ** Ordered lists *)

Section Cadenas.
Context {A : Type} (R : A -> A -> Prop).

Lemma StronglySorted_app l1 l2 :
  StronglySorted R l1 -> StronglySorted R l2 ->
  (forall x y, In x l1 -> In y l2 -> R x y) ->
  StronglySorted R (l1 ++ l2).
Proof.
  induction 1 as [|a l1 Hs IH Ha]; intros H2 H12; simpl; [assumption|].
  constructor.
  - apply IH; [assumption|]. intros x y Hx Hy. apply H12; simpl; auto.
  - apply Forall_app. split; [assumption|].
    apply Forall_forall. intros y Hy. apply H12; simpl; auto.
Qed.

Lemma StronglySorted_impl_In (R' : A -> A -> Prop) l :
  (forall x y, In x l -> In y l -> R x y -> R' x y) ->
  StronglySorted R l -> StronglySorted R' l.
Proof.
  intros Himp Hs. induction Hs as [|a l Hs IH Ha]; constructor.
  - apply IH. intros x y Hx Hy. apply Himp; simpl; auto.
  - rewrite Forall_forall in *. intros y Hy.
    apply Himp; simpl; auto.
Qed.
End Cadenas.

(** The same, when the two comparisons agree on the entries of the list
    only. *)
Lemma py_insert_map_en {A B : Type} (f : A -> B) (leb' : A -> A -> bool)
    (leb : B -> B -> bool) x l :
  (forall y, In y l -> leb' x y = leb (f x) (f y)) ->
  map f (py_insert leb' x l) = py_insert leb (f x) (map f l).
Proof.
  induction l as [|y t IH]; intro H; [reflexivity|].
  simpl. rewrite (H y (or_introl eq_refl)).
  destruct (leb (f x) (f y)); [reflexivity|].
  simpl. rewrite IH; [reflexivity|]. intros z Hz. apply H. now right.
Qed.

Lemma py_sorted_map_en {A B : Type} (f : A -> B) (leb' : A -> A -> bool)
    (leb : B -> B -> bool) l :
  (forall x y, In x l -> In y l -> leb' x y = leb (f x) (f y)) ->
  map f (py_sorted leb' l) = py_sorted leb (map f l).
Proof.
  induction l as [|x t IH]; intro H; [reflexivity|].
  simpl. rewrite (py_insert_map_en f leb' leb).
  - rewrite IH; [reflexivity|]. intros; apply H; now right.
  - intros y Hy. apply H; [now left|right].
    exact (Permutation_in y (py_sorted_perm leb' t) Hy).
Qed.

(** ** Change making *)

Lemma mayor_a_menor_total x y :
  mayor_a_menor x y = true \/ mayor_a_menor y x = true.
Proof. unfold mayor_a_menor. destruct (Z.leb_spec y x); [now left|right]. apply Z.leb_le. lia. Qed.

Lemma mayor_a_menor_trans x y z :
  mayor_a_menor x y = true -> mayor_a_menor y z = true ->
  mayor_a_menor x z = true.
Proof. unfold mayor_a_menor. rewrite !Z.leb_le. lia. Qed.

Lemma dict_set_nueva d k v :
  Forall (fun kv => fst kv <> k) d -> dict_set d k v = d ++ [(k, v)].
Proof.
  induction 1 as [|[k' v'] t Hk _ IH]; [reflexivity|].
  simpl in *. destruct (Z.eqb_spec k' k); [contradiction|]. now rewrite IH.
Qed.

(** With positive denominations and nothing owed below zero, the loop
    never divides by zero and never writes a key twice: every key written
    so far exceeds what is still owed. *)
Lemma cambio_bucle_entradas ms : forall d r,
  Forall (fun m => 0 < m) ms -> 0 <= r ->
  Forall (fun kv => r < fst kv) d ->
  cambio_bucle ms d r = Ok (d ++ entradas ms r).
Proof.
  induction ms as [|m ms IH]; intros d r Hpos Hr Hd; simpl.
  - now rewrite app_nil_r.
  - inversion Hpos as [|? ? Hm Hpos']; subst.
    rewrite Z.geb_leb. destruct (Z.leb_spec m r) as [Hle|Hlt].
    + unfold py_floordiv, py_mod.
      destruct (Z.eqb_spec m 0); [lia|]. simpl.
      pose proof (Z.mod_pos_bound r m Hm) as Hb.
      rewrite dict_set_nueva.
      * rewrite IH; [now rewrite <- app_assoc | assumption | lia |].
        apply Forall_app. split.
        -- eapply Forall_impl; [|exact Hd]. simpl. intros. lia.
        -- repeat constructor. simpl. lia.
      * eapply Forall_impl; [|exact Hd]. simpl. intros. lia.
    + now apply IH.
Qed.

Lemma entradas_suma ms : forall r,
  Forall (fun m => 0 < m) ms ->
  suma_ponderada (entradas ms r) + restante_final ms r = r.
Proof.
  induction ms as [|m ms IH]; intros r Hpos; simpl; [reflexivity|].
  inversion Hpos as [|? ? Hm Hpos']; subst.
  destruct (r >=? m).
  - change (suma_ponderada ((m, r / m) :: entradas ms (r mod m)))
      with (m * (r / m) + suma_ponderada (entradas ms (r mod m))).
    rewrite <- Z.add_assoc, (IH _ Hpos').
    symmetry. apply Z.div_mod. lia.
  - now apply IH.
Qed.

Lemma entradas_positivas ms : forall r,
  Forall (fun m => 0 < m) ms -> Forall (fun kv => 1 <= snd kv) (entradas ms r).
Proof.
  induction ms as [|m ms IH]; intros r Hpos; simpl; [constructor|].
  inversion Hpos as [|? ? Hm Hpos']; subst.
  rewrite Z.geb_leb. destruct (Z.leb_spec m r) as [Hle|Hlt]; [|now apply IH].
  constructor; [|now apply IH]. simpl.
  assert (0 < r / m) by (apply Z.div_str_pos; lia). lia.
Qed.

Lemma restante_final_cota ms : forall r,
  Forall (fun m => 0 < m) ms -> 0 <= r -> 0 <= restante_final ms r <= r.
Proof.
  induction ms as [|m ms IH]; intros r Hpos Hr; simpl; [lia|].
  inversion Hpos as [|? ? Hm Hpos']; subst.
  rewrite Z.geb_leb. destruct (Z.leb_spec m r) as [Hle|Hlt]; [|now apply IH].
  pose proof (Z.mod_pos_bound r m Hm).
  assert (r mod m <= r) by (apply Z.mod_le; lia).
  specialize (IH (r mod m) Hpos'). lia.
Qed.

(** A coin of value 1 pays whatever is left. *)
Lemma restante_final_con_uno ms : forall r,
  Forall (fun m => 0 < m) ms -> 0 <= r -> In 1 ms -> restante_final ms r = 0.
Proof.
  induction ms as [|m ms IH]; intros r Hpos Hr Hin; [contradiction|].
  inversion Hpos as [|? ? Hm Hpos']; subst. simpl.
  rewrite Z.geb_leb.
  destruct Hin as [->|Hin].
  - destruct (Z.leb_spec 1 r) as [Hle|Hlt].
    + rewrite Z.mod_1_r.
      pose proof (restante_final_cota ms 0 Hpos'). lia.
    + assert (r = 0) by lia. subst r.
      pose proof (restante_final_cota ms 0 Hpos'). lia.
  - pose proof (Z.mod_pos_bound r m Hm).
    destruct (Z.leb_spec m r); apply IH; auto; lia.
Qed.

Lemma entradas_total ms : forall r,
  Forall (fun m => 0 < m) ms -> 0 <= r ->
  total_monedas (entradas ms r) = monedas_usadas ms r.
Proof.
  induction ms as [|m ms IH]; intros r Hpos Hr; simpl; [reflexivity|].
  inversion Hpos as [|? ? Hm Hpos']; subst.
  pose proof (Z.mod_pos_bound r m Hm).
  rewrite Z.geb_leb. destruct (Z.leb_spec m r) as [Hle|Hlt].
  - change (total_monedas ((m, r / m) :: entradas ms (r mod m)))
      with (r / m + total_monedas (entradas ms (r mod m))).
    rewrite IH; auto; lia.
  - rewrite Z.div_small, Z.mod_small by lia. rewrite IH; auto.
Qed.

Lemma dar_cambio_voraz_entradas cantidad monedas :
  Forall (fun m => 0 < m) monedas -> 0 <= cantidad ->
  dar_cambio_voraz cantidad monedas
  = Ok (entradas (py_sorted mayor_a_menor monedas) cantidad).
Proof.
  intros Hpos Hc. unfold dar_cambio_voraz.
  rewrite cambio_bucle_entradas; [reflexivity| |assumption|constructor].
  eapply Permutation_Forall; [|exact Hpos].
  symmetry. apply py_sorted_perm.
Qed.

(** Sorting the four denominations, given in any order. *)
Lemma sorted_por_defecto monedas :
  Permutation monedas monedas_por_defecto ->
  py_sorted mayor_a_menor monedas = [25; 10; 5; 1].
Proof.
  intro Hp.
  assert (Hq : Permutation (py_sorted mayor_a_menor monedas) [25; 10; 5; 1]).
  { rewrite py_sorted_perm. exact Hp. }
  pose proof (py_sorted_ordenada mayor_a_menor mayor_a_menor_total mayor_a_menor_trans monedas)
    as Hs.
  set (l := py_sorted mayor_a_menor monedas) in *. clearbody l.
  pose proof (Permutation_length Hq) as Hlen.
  destruct l as [|a [|b [|c [|e [|? ?]]]]]; try discriminate.
  assert (H25 : In 25 [a; b; c; e]) by (eapply Permutation_in; [symmetry; exact Hq|simpl; auto]).
  assert (H10 : In 10 [a; b; c; e]) by (eapply Permutation_in; [symmetry; exact Hq|simpl; auto]).
  assert (H5 : In 5 [a; b; c; e]) by (eapply Permutation_in; [symmetry; exact Hq|simpl; auto]).
  assert (H1 : In 1 [a; b; c; e]) by (eapply Permutation_in; [symmetry; exact Hq|simpl; auto 6]).
  inversion Hs as [|? ? Hs1 Ha]; subst.
  inversion Hs1 as [|? ? Hs2 Hb]; subst.
  inversion Hs2 as [|? ? Hs3 Hc]; subst.
  inversion Ha as [|? ? Hab Ha']; subst. inversion Ha' as [|? ? Hac Ha'']; subst.
  inversion Ha'' as [|? ? Hae _]; subst.
  inversion Hb as [|? ? Hbc Hb']; subst. inversion Hb' as [|? ? Hbe _]; subst.
  inversion Hc as [|? ? Hce _]; subst.
  unfold mayor_a_menor in *. rewrite Z.leb_le in *.
  simpl in H25, H10, H5, H1.
  assert (a = 25 /\ b = 10 /\ c = 5 /\ e = 1) as (-> & -> & -> & ->) by lia.
  reflexivity.
Qed.

(** A change made of quarters, dimes, nickels and pennies. *)
Lemma representacion_agrupada d :
  Forall (fun kv => In (fst kv) monedas_por_defecto /\ 0 <= snd kv) d ->
  exists a b c e, 0 <= a /\ 0 <= b /\ 0 <= c /\ 0 <= e /\
    suma_ponderada d = 25 * a + 10 * b + 5 * c + e /\
    total_monedas d = a + b + c + e.
Proof.
  induction 1 as [|[k v] t [Hk Hv] _ (a & b & c & e & Ha & Hb & Hc & He & Hs & Ht)].
  - exists 0, 0, 0, 0. cbn. lia.
  - change (suma_ponderada ((k, v) :: t)) with (k * v + suma_ponderada t).
    change (total_monedas ((k, v) :: t)) with (v + total_monedas t).
    rewrite Hs, Ht. simpl in Hk, Hv.
    destruct Hk as [<-|[<-|[<-|[<-|[]]]]].
    + exists (a + v), b, c, e. lia.
    + exists a, (b + v), c, e. lia.
    + exists a, b, (c + v), e. lia.
    + exists a, b, c, (e + v). lia.
Qed.

Lemma monedas_usadas_minimo n a b c e :
  0 <= n -> 0 <= a -> 0 <= b -> 0 <= c -> 0 <= e ->
  25 * a + 10 * b + 5 * c + e = n ->
  monedas_usadas [25; 10; 5; 1] n <= a + b + c + e.
Proof.
  intros Hn Ha Hb Hc He Hrep. cbn [monedas_usadas].
  rewrite Z.div_1_r.
  pose proof (Z.div_mod n 25 ltac:(lia)).
  pose proof (Z.mod_pos_bound n 25 ltac:(lia)).
  set (r1 := n mod 25) in *. set (q1 := n / 25) in *.
  pose proof (Z.div_mod r1 10 ltac:(lia)).
  pose proof (Z.mod_pos_bound r1 10 ltac:(lia)).
  set (r2 := r1 mod 10) in *. set (q2 := r1 / 10) in *.
  pose proof (Z.div_mod r2 5 ltac:(lia)).
  pose proof (Z.mod_pos_bound r2 5 ltac:(lia)).
  set (r3 := r2 mod 5) in *. set (q3 := r2 / 5) in *.
  clearbody r1 q1 r2 q2 r3 q3. lia.
Qed.

Lemma entradas_claves ms : forall r,
  Forall (fun m => 0 < m) ms -> 0 <= r ->
  Forall (fun kv => In (fst kv) ms /\ fst kv <= r) (entradas ms r) /\
  NoDup (map fst (entradas ms r)).
Proof.
  induction ms as [|m ms IH]; intros r Hpos Hr; simpl.
  - split; constructor.
  - inversion Hpos as [|? ? Hm Hpos']; subst.
    pose proof (Z.mod_pos_bound r m Hm) as Hb.
    rewrite Z.geb_leb. destruct (Z.leb_spec m r) as [Hle|Hlt].
    + destruct (IH (r mod m) Hpos' ltac:(lia)) as [Hk Hn].
      assert (r mod m <= r) by (apply Z.mod_le; lia).
      split.
      * constructor; [simpl; auto with zarith|].
        eapply Forall_impl; [|exact Hk]. simpl. intros kv [? ?]. split; [auto|lia].
      * simpl. constructor; [|exact Hn].
        rewrite in_map_iff. intros ([k v] & Hkv & Hin). simpl in Hkv. subst k.
        rewrite Forall_forall in Hk. apply Hk in Hin. simpl in Hin. lia.
    + destruct (IH r Hpos' Hr) as [Hk Hn]. split; [|exact Hn].
      eapply Forall_impl; [|exact Hk]. simpl. intros kv [? ?]. auto.
Qed.

(** A negative amount is below every denomination that is not negative:
    the test of the loop fails at every coin. *)
Lemma cambio_bucle_negativo ms : forall d r,
  r < 0 -> Forall (fun m => 0 <= m) ms -> cambio_bucle ms d r = Ok d.
Proof.
  induction ms as [|m ms IH]; intros d r Hr Hms; [reflexivity|].
  inversion Hms as [|? ? Hm Hms']; subst. simpl.
  rewrite Z.geb_leb. destruct (Z.leb_spec m r); [lia|]. now apply IH.
Qed.

(** ** Results on change making *)

(** C6. For every amount that is not negative and every list of positive
    denominations containing 1, [dar_cambio_voraz] raises nothing and
    returns a mapping (no denomination recorded twice) in which every
    recorded count is at least 1 and whose weighted sum, denomination times
    count, is the amount exactly. For the amount 0 and the denominations
    [[25;10;5;1]] the mapping is empty. *)
Theorem dar_cambio_voraz_exacto cantidad monedas :
  0 <= cantidad -> Forall (fun m => 0 < m) monedas -> In 1 monedas ->
  (exists resultado,
     dar_cambio_voraz cantidad monedas = Ok resultado /\
     NoDup (map fst resultado) /\
     Forall (fun kv => 1 <= snd kv) resultado /\
     suma_ponderada resultado = cantidad) /\
  dar_cambio_voraz 0 [25; 10; 5; 1] = Ok [].
Proof.
  intros Hc Hpos H1. split; [|reflexivity].
  assert (Hpos' : Forall (fun m => 0 < m) (py_sorted mayor_a_menor monedas)).
  { eapply Permutation_Forall; [|exact Hpos]. symmetry. apply py_sorted_perm. }
  exists (entradas (py_sorted mayor_a_menor monedas) cantidad).
  split; [now apply dar_cambio_voraz_entradas|].
  split; [now apply entradas_claves|].
  split; [now apply entradas_positivas|].
  pose proof (entradas_suma (py_sorted mayor_a_menor monedas) cantidad Hpos') as Hs.
  rewrite restante_final_con_uno in Hs; [lia|assumption|assumption|].
  eapply Permutation_in; [|exact H1]. symmetry. apply py_sorted_perm.
Qed.

Lemma dar_cambio_voraz_exacto_witness :
  (exists resultado,
     dar_cambio_voraz 99 [1; 10; 25; 5] = Ok resultado /\
     NoDup (map fst resultado) /\
     Forall (fun kv => 1 <= snd kv) resultado /\
     suma_ponderada resultado = 99) /\
  dar_cambio_voraz 0 [25; 10; 5; 1] = Ok [].
Proof.
  apply (dar_cambio_voraz_exacto 99 [1; 10; 25; 5]).
  - lia.
  - repeat constructor.
  - simpl. auto.
Defined.

(** C3. For the denominations 1, 5, 10 and 25, listed in any order, and
    every amount from 0 upwards (so every amount in [[0, 10000]]),
    [dar_cambio_voraz] returns a change for the amount: its weighted sum is
    the amount exactly, and no change for the same amount with these
    denominations uses fewer coins. For 67 and [[25;10;5;1]] it returns
    [{25:2, 10:1, 5:1, 1:2}], six coins. *)
Theorem dar_cambio_voraz_minimo cantidad monedas :
  Permutation monedas [25; 10; 5; 1] -> 0 <= cantidad ->
  (exists resultado,
     dar_cambio_voraz cantidad monedas = Ok resultado /\
     representacion monedas cantidad resultado /\
     forall d, representacion monedas cantidad d ->
       total_monedas resultado <= total_monedas d) /\
  dar_cambio_voraz 67 [25; 10; 5; 1] = Ok [(25, 2); (10, 1); (5, 1); (1, 2)] /\
  total_monedas [(25, 2); (10, 1); (5, 1); (1, 2)] = 6.
Proof.
  intros Hp Hc. split; [|split; reflexivity].
  assert (Hpos : Forall (fun m => 0 < m) monedas).
  { eapply Permutation_Forall; [symmetry; exact Hp|]. repeat constructor. }
  assert (Hpos4 : Forall (fun m => 0 < m) [25; 10; 5; 1]) by repeat constructor.
  exists (entradas [25; 10; 5; 1] cantidad).
  split.
  { rewrite dar_cambio_voraz_entradas by assumption.
    now rewrite (sorted_por_defecto monedas Hp). }
  split.
  { split.
    - destruct (entradas_claves [25; 10; 5; 1] cantidad Hpos4 Hc) as [Hk _].
      pose proof (entradas_positivas [25; 10; 5; 1] cantidad Hpos4) as Hv.
      rewrite Forall_forall in *. intros kv Hin. split.
      + eapply Permutation_in; [symmetry; exact Hp|]. now apply Hk.
      + specialize (Hv kv Hin). simpl in Hv. lia.
    - pose proof (entradas_suma [25; 10; 5; 1] cantidad Hpos4) as Hs.
      rewrite restante_final_con_uno in Hs; [lia|assumption|assumption|].
      simpl. auto. }
  intros d [Hd Hs].
  rewrite entradas_total by assumption.
  destruct (representacion_agrupada d) as (a & b & c & e & Ha & Hb & Hcc & He & Hsum & Htot).
  { eapply Forall_impl; [|exact Hd]. cbv beta. intros kv [Hin Hv]. split; [|exact Hv].
    exact (Permutation_in _ Hp Hin). }
  rewrite Htot. apply monedas_usadas_minimo; lia.
Qed.

Lemma dar_cambio_voraz_minimo_witness :
  (exists resultado,
     dar_cambio_voraz 10000 [5; 25; 1; 10] = Ok resultado /\
     representacion [5; 25; 1; 10] 10000 resultado /\
     forall d, representacion [5; 25; 1; 10] 10000 d ->
       total_monedas resultado <= total_monedas d) /\
  dar_cambio_voraz 67 [25; 10; 5; 1] = Ok [(25, 2); (10, 1); (5, 1); (1, 2)] /\
  total_monedas [(25, 2); (10, 1); (5, 1); (1, 2)] = 6.
Proof.
  apply (dar_cambio_voraz_minimo 10000 [5; 25; 1; 10]).
  - change [5; 25; 1; 10] with ([5] ++ 25 :: [1; 10]).
    symmetry. apply Permutation_cons_app. simpl.
    change [5; 1; 10] with ([5; 1] ++ 10 :: []).
    apply Permutation_cons_app. simpl. reflexivity.
  - lia.
Defined.

(** ** Activity selection *)

Lemma construida_valida a :
  Actividad.construida a -> inicio a < fin a /\ duracion a = fin a - inicio a.
Proof.
  unfold Actividad.construida, Actividad.init. destruct a as [i f n d]. simpl.
  rewrite Z.geb_leb. destruct (Z.leb_spec f i) as [Hle|Hlt]; [discriminate|].
  intro Heq. injection Heq as <-. lia.
Qed.

Lemma traslapa_con_false a b :
  traslapa_con a b = false <-> fin a <= inicio b \/ fin b <= inicio a.
Proof.
  unfold traslapa_con. rewrite negb_false_iff, orb_true_iff, !Z.leb_le.
  reflexivity.
Qed.

Lemma traslapa_con_sym a b : traslapa_con a b = traslapa_con b a.
Proof. unfold traslapa_con. now rewrite orb_comm. Qed.


(** What the loop keeps true: the activities selected so far follow one
    another, and all of them are over by [ultimo_fin]. The order of the
    activities still to visit plays no part in it. *)
Lemma seleccion_bucle_cadena l : forall sel t,
  Forall (fun a => inicio a < fin a) l ->
  Forall (fun a => inicio a < fin a) sel ->
  StronglySorted antes sel ->
  Forall (fun a => fin a <= t) sel ->
  StronglySorted antes (seleccion_bucle l sel t) /\
  Forall (fun a => inicio a < fin a) (seleccion_bucle l sel t).
Proof.
  induction l as [|a l IH]; intros sel t Hl Hv Hs Ht; simpl; [now split|].
  inversion Hl as [|? ? Ha Hl']; subst.
  rewrite Z.geb_leb. destruct (Z.leb_spec t (inicio a)) as [Hle|Hlt].
  - apply IH; try assumption.
    + apply Forall_app. split; [assumption|now constructor].
    + apply StronglySorted_app; [assumption|repeat constructor|].
      intros x y Hx [<-|[]]. rewrite Forall_forall in Ht.
      specialize (Ht x Hx). unfold antes. lia.
    + apply Forall_app. split.
      * eapply Forall_impl; [|exact Ht]. simpl. intros. lia.
      * repeat constructor. lia.
  - now apply IH.
Qed.

Lemma verificar_sin_traslape_cadena sel :
  StronglySorted antes sel -> verificar_sin_traslape sel = true.
Proof.
  induction 1 as [|a l Hs IH Ha]; [reflexivity|]. simpl.
  rewrite IH, andb_true_r. apply forallb_forall. intros b Hb.
  rewrite Forall_forall in Ha. specialize (Ha b Hb).
  apply negb_true_iff, traslapa_con_false. now left.
Qed.

Lemma seleccion_actividades_voraz_cadena actividades :
  Forall Actividad.construida actividades ->
  StronglySorted antes (seleccion_actividades_voraz actividades) /\
  Forall (fun a => inicio a < fin a) (seleccion_actividades_voraz actividades).
Proof.
  intro Hc.
  assert (Hv : Forall (fun a => inicio a < fin a) actividades).
  { eapply Forall_impl; [|exact Hc]. intros a Ha. now apply construida_valida. }
  unfold seleccion_actividades_voraz.
  destruct actividades as [|a l]; [split; constructor|].
  apply seleccion_bucle_cadena; try constructor.
  eapply Permutation_Forall; [|exact Hv]. symmetry. apply py_sorted_perm.
Qed.

(** *** How many activities the loop selects *)

Lemma seleccion_bucle_elegidas l : forall sel t,
  seleccion_bucle l sel t = sel ++ elegidas l t.
Proof.
  induction l as [|a l IH]; intros sel t; simpl.
  - now rewrite app_nil_r.
  - destruct (inicio a >=? t); [|apply IH].
    rewrite IH, <- app_assoc. reflexivity.
Qed.

Lemma seleccion_actividades_voraz_elegidas actividades :
  seleccion_actividades_voraz actividades
  = elegidas (py_sorted menor_fin actividades) (-1).
Proof.
  unfold seleccion_actividades_voraz.
  destruct actividades; [reflexivity|apply seleccion_bucle_elegidas].
Qed.

Lemma menor_fin_total a b : menor_fin a b = true \/ menor_fin b a = true.
Proof.
  unfold menor_fin. destruct (Z.leb_spec (fin a) (fin b)); [now left|right].
  apply Z.leb_le. lia.
Qed.

Lemma menor_fin_trans a b c :
  menor_fin a b = true -> menor_fin b c = true -> menor_fin a c = true.
Proof. unfold menor_fin. rewrite !Z.leb_le. lia. Qed.

Lemma subconjunto_In s l x : subconjunto s l -> In x s -> In x l.
Proof.
  intros [r Hp] Hx. apply (Permutation_in _ Hp). apply in_or_app. now left.
Qed.

Lemma subconjunto_trans s1 s2 l :
  subconjunto s1 s2 -> subconjunto s2 l -> subconjunto s1 l.
Proof.
  intros [r1 H1] [r2 H2]. exists (r1 ++ r2).
  rewrite app_assoc, H1. exact H2.
Qed.

Lemma subconjunto_perm s l l' :
  subconjunto s l -> Permutation l l' -> subconjunto s l'.
Proof. intros [r H] Hp. exists r. now rewrite H. Qed.

Lemma subconjunto_filter p s : subconjunto (filter p s) s.
Proof.
  exists (filter (fun x => negb (p x)) s).
  induction s as [|a s IH]; simpl; [reflexivity|].
  destruct (p a); simpl.
  - now constructor.
  - rewrite <- Permutation_middle. now constructor.
Qed.

Lemma subconjunto_cons_inv s a l :
  subconjunto s (a :: l) -> ~ In a s -> subconjunto s l.
Proof.
  intros [r Hp] Hn.
  assert (Ha : In a (s ++ r)).
  { apply (Permutation_in _ (Permutation_sym Hp)). now left. }
  apply in_app_or in Ha. destruct Ha as [Ha|Ha]; [contradiction|].
  apply in_split in Ha. destruct Ha as (r1 & r2 & ->).
  exists (r1 ++ r2).
  apply Permutation_cons_inv with (a := a).
  rewrite <- Hp, !app_assoc. apply Permutation_middle.
Qed.

Lemma subconjunto_nil s : subconjunto s [] -> s = [].
Proof.
  intros [r Hp]. apply Permutation_sym, Permutation_nil in Hp.
  now apply app_eq_nil in Hp.
Qed.

Lemma verificar_sin_traslape_filter p s :
  verificar_sin_traslape s = true ->
  verificar_sin_traslape (filter p s) = true.
Proof.
  induction s as [|a s IH]; [reflexivity|]. simpl.
  rewrite andb_true_iff. intros [Ha Hs]. specialize (IH Hs).
  destruct (p a); [|exact IH]. simpl. rewrite IH, andb_true_r.
  rewrite forallb_forall in *. intros b Hb. apply Ha.
  now apply filter_In in Hb.
Qed.

(** Among activities that all end at [f] or later, and do not overlap,
    at most one begins before [f]. *)
Lemma a_lo_mas_una_antes f s :
  verificar_sin_traslape s = true ->
  Forall (fun b => inicio b < fin b /\ f <= fin b) s ->
  (List.length s <= S (List.length (filter (fun b => (f <=? inicio b)%Z) s)))%nat.
Proof.
  induction s as [|b s IH]; intros Hs Hf; [simpl; lia|].
  simpl in Hs. apply andb_true_iff in Hs. destruct Hs as [Hb Hs].
  inversion Hf as [|? ? [Hvb Hfb] Hf']; subst.
  specialize (IH Hs Hf'). simpl.
  destruct (Z.leb_spec f (inicio b)) as [Hle|Hlt]; simpl; [lia|].
  assert (E : filter (fun c => f <=? inicio c) s = s).
  { apply forallb_filter_id. apply forallb_forall. intros c Hc.
    rewrite forallb_forall in Hb. specialize (Hb c Hc).
    apply negb_true_iff, traslapa_con_false in Hb.
    rewrite Forall_forall in Hf'. destruct (Hf' c Hc).
    apply Z.leb_le. lia. }
  rewrite E. lia.
Qed.

(** The exchange argument, on the activities in the order the loop
    visits them: a selection without overlap among activities sorted by
    end time, none of which begins before [t], is no longer than what the
    loop selects from [t]. *)
Lemma elegidas_maximo l : forall t s,
  StronglySorted (fun a b => fin a <= fin b) l ->
  Forall (fun a => inicio a < fin a) l ->
  subconjunto s l -> verificar_sin_traslape s = true ->
  Forall (fun b => t <= inicio b) s ->
  (List.length s <= List.length (elegidas l t))%nat.
Proof.
  induction l as [|a l IH]; intros t s Hl Hv Hsub Hs Ht.
  { apply subconjunto_nil in Hsub. subst. simpl. lia. }
  inversion Hl as [|? ? Hl' Ha]; subst.
  inversion Hv as [|? ? Hva Hv']; subst.
  simpl. rewrite Z.geb_leb.
  destruct (Z.leb_spec t (inicio a)) as [Hle|Hlt].
  - set (p := fun b => fin a <=? inicio b).
    assert (Hcount : (List.length s <= S (List.length (filter p s)))%nat).
    { apply a_lo_mas_una_antes; [assumption|].
      apply Forall_forall. intros b Hb.
      pose proof (subconjunto_In _ _ b Hsub Hb) as [<-|Hin]; [lia|].
      rewrite Forall_forall in Ha, Hv'. specialize (Ha b Hin).
      specialize (Hv' b Hin). lia. }
    assert (Hrec : (List.length (filter p s) <= List.length (elegidas l (fin a)))%nat).
    { apply IH; try assumption.
      - apply subconjunto_cons_inv with (a := a).
        + eapply subconjunto_trans; [apply subconjunto_filter|exact Hsub].
        + intro Hin. apply filter_In in Hin. destruct Hin as [_ Hp].
          unfold p in Hp. apply Z.leb_le in Hp. lia.
      - now apply verificar_sin_traslape_filter.
      - apply Forall_forall. intros b Hb. apply filter_In in Hb.
        destruct Hb as [_ Hp]. unfold p in Hp. now apply Z.leb_le in Hp. }
    simpl. lia.
  - apply IH; try assumption.
    apply subconjunto_cons_inv with (a := a); [assumption|].
    intro Hin. rewrite Forall_forall in Ht. specialize (Ht a Hin). lia.
Qed.

(** ** Results on activities *)

(** C7. Building an activity fails exactly when [inicio >= fin]: for every
    such pair the constructor raises (a [ValueError]); for every pair with
    [inicio < fin] it returns the activity with the given start, end and
    name and with [duracion = fin - inicio]. *)
Theorem Actividad_init_exacto i f n :
  (i >= f <-> exists e, Actividad.init i f n = Raise e) /\
  (i >= f ->
     Actividad.init i f n
     = Raise (ValueError "El tiempo de inicio debe ser menor que el tiempo de fin")) /\
  (i < f ->
     exists a, Actividad.init i f n = Ok a /\
       inicio a = i /\ fin a = f /\ Actividad.nombre a = n /\
       duracion a = f - i).
Proof.
  unfold Actividad.init. rewrite Z.geb_leb.
  destruct (Z.leb_spec f i) as [Hle|Hlt]; repeat split; try lia; eauto.
  - intros [e He]. discriminate.
  - intros _. eexists. repeat split.
Qed.

Lemma Actividad_init_exacto_witness :
  (exists e, Actividad.init 4 4 "A" = Raise e) /\
  (exists a, Actividad.init 1 4 "A" = Ok a /\
     inicio a = 1 /\ fin a = 4 /\ Actividad.nombre a = "A"%string /\
     duracion a = 4 - 1).
Proof.
  split.
  - apply (proj1 (Actividad_init_exacto 4 4 "A")). lia.
  - apply (proj2 (proj2 (Actividad_init_exacto 1 4 "A"))). lia.
Defined.

(** C5. For every list of activities (objects as the constructor builds
    them), the list returned by [seleccion_actividades_voraz] is in
    increasing order of end time and no two of its entries overlap: every
    entry is over before any later entry begins, which is what
    [verificar_sin_traslape] checks with [traslapa_con]. [traslapa_con]
    is the half-open relation: [a] and [b] overlap iff not
    ([a.fin <= b.inicio] or [b.fin <= a.inicio]), so activities that only
    touch ([a.fin = b.inicio]) do not overlap. *)
Theorem seleccion_ordenada_sin_traslape actividades :
  Forall Actividad.construida actividades ->
  let sel := seleccion_actividades_voraz actividades in
  StronglySorted (fun a b => fin a < fin b) sel /\
  ForallOrdPairs
    (fun a b => traslapa_con a b = false /\ traslapa_con b a = false) sel /\
  verificar_sin_traslape sel = true /\
  (forall a b,
     traslapa_con a b = true <-> ~ (fin a <= inicio b \/ fin b <= inicio a)) /\
  (forall a b, fin a = inicio b -> traslapa_con a b = false).
Proof.
  intros Hc sel.
  destruct (seleccion_actividades_voraz_cadena actividades Hc) as [Hs Hv].
  fold sel in Hs, Hv. clearbody sel.
  split; [|split; [|split; [|split]]].
  - induction Hs as [|a l Hs IH Ha]; [constructor|].
    inversion Hv as [|? ? Hva Hvl]; subst.
    constructor; [now apply IH|].
    rewrite Forall_forall in *. intros b Hb.
    specialize (Ha b Hb). specialize (Hvl b Hb). unfold antes in Ha. lia.
  - clear Hv. induction Hs as [|a l Hs IH Ha]; constructor; [|assumption].
    eapply Forall_impl; [|exact Ha]. intros b Hab.
    rewrite (traslapa_con_sym b a), traslapa_con_false. auto.
  - now apply verificar_sin_traslape_cadena.
  - intros a b. rewrite <- traslapa_con_false.
    destruct (traslapa_con a b); split; congruence.
  - intros a b Heq. apply traslapa_con_false. left. lia.
Qed.

Lemma seleccion_ordenada_sin_traslape_witness :
  let sel :=
    seleccion_actividades_voraz
      [Actividad.Build 3 5 "B" 2; Actividad.Build 1 3 "A" 2;
       Actividad.Build 0 6 "C" 6] in
  StronglySorted (fun a b => fin a < fin b) sel /\
  ForallOrdPairs
    (fun a b => traslapa_con a b = false /\ traslapa_con b a = false) sel /\
  verificar_sin_traslape sel = true /\
  (forall a b,
     traslapa_con a b = true <-> ~ (fin a <= inicio b \/ fin b <= inicio a)) /\
  (forall a b, fin a = inicio b -> traslapa_con a b = false).
Proof.
  apply (seleccion_ordenada_sin_traslape
           [Actividad.Build 3 5 "B" 2; Actividad.Build 1 3 "A" 2;
            Actividad.Build 0 6 "C" 6]).
  repeat constructor.
Defined.

(** C1 fails on the code. The loop starts from [ultimo_fin = -1], so an
    activity that starts before -1 is never the first one selected. For the
    single activity from -5 to -3, which its constructor accepts, the
    function returns the empty list, although the activity alone is a
    selection without overlap of size 1. *)
Theorem seleccion_pierde_actividad_negativa :
  let a := Actividad.Build (-5) (-3) "A" 2 in
  Actividad.init (-5) (-3) "A" = Ok a /\
  seleccion_actividades_voraz [a] = [] /\
  subconjunto [a] [a] /\ verificar_sin_traslape [a] = true /\
  (List.length (seleccion_actividades_voraz [a]) < List.length [a])%nat.
Proof.
  cbv zeta. split; [reflexivity|]. split; [reflexivity|].
  split; [exists []; reflexivity|]. split; [reflexivity|].
  simpl. lia.
Qed.

(** X5. The defect is confined to the sentinel: when no activity starts
    before -1, the selection is as large as any selection without overlap
    taken from the input, and it is itself taken from the input. *)
Theorem seleccion_optima_desde_menos_uno actividades s :
  Forall Actividad.construida actividades ->
  Forall (fun a => -1 <= inicio a) actividades ->
  subconjunto s actividades -> verificar_sin_traslape s = true ->
  (List.length s <= List.length (seleccion_actividades_voraz actividades))%nat.
Proof.
  intros Hc Hneg Hsub Hs.
  rewrite seleccion_actividades_voraz_elegidas.
  pose proof (py_sorted_perm menor_fin actividades) as Hp.
  apply elegidas_maximo.
  - eapply StronglySorted_impl_In;
      [|apply (py_sorted_ordenada menor_fin menor_fin_total menor_fin_trans)].
    intros a b _ _. unfold menor_fin. apply Z.leb_le.
  - eapply Permutation_Forall; [symmetry; exact Hp|].
    eapply Forall_impl; [|exact Hc]. intros a Ha. now apply construida_valida.
  - eapply subconjunto_perm; [exact Hsub|]. now symmetry.
  - assumption.
  - apply Forall_forall. intros b Hb. rewrite Forall_forall in Hneg.
    apply Hneg. eapply subconjunto_In; eassumption.
Qed.

Lemma elegidas_subconjunto l : forall t, subconjunto (elegidas l t) l.
Proof.
  induction l as [|a l IH]; intro t; simpl; [now exists []|].
  destruct (inicio a >=? t).
  - destruct (IH (fin a)) as [r Hr]. exists r. simpl. now constructor.
  - destruct (IH t) as [r Hr]. exists (a :: r).
    rewrite <- Permutation_middle. now constructor.
Qed.

(** X6. The selection is taken from the input: every selected activity
    is an entry of the input, and no entry is selected more often than
    the input has it. *)
Theorem seleccion_es_subconjunto actividades :
  subconjunto (seleccion_actividades_voraz actividades) actividades.
Proof.
  rewrite seleccion_actividades_voraz_elegidas.
  eapply subconjunto_perm; [apply elegidas_subconjunto|apply py_sorted_perm].
Qed.

(** The example of the driver: eleven activities, of which A, D, H and K
    are selected. *)
Example seleccion_caso_1 :
  map Actividad.nombre
    (seleccion_actividades_voraz
       [Actividad.Build 1 4 "A" 3; Actividad.Build 3 5 "B" 2;
        Actividad.Build 0 6 "C" 6; Actividad.Build 5 7 "D" 2;
        Actividad.Build 3 8 "E" 5; Actividad.Build 5 9 "F" 4;
        Actividad.Build 6 10 "G" 4; Actividad.Build 8 11 "H" 3;
        Actividad.Build 8 12 "I" 4; Actividad.Build 2 13 "J" 11;
        Actividad.Build 12 14 "K" 2])
  = ["A"; "D"; "H"; "K"]%string.
Proof. reflexivity. Qed.

(** ** Fractional knapsack *)

Section MochilaFacts.
Local Open Scope Q_scope.
Import Articulo.

Lemma Qle_bool_false x y : Qle_bool x y = false -> y < x.
Proof.
  intro H. apply Qnot_le_lt. intro Hle.
  apply Qle_bool_iff in Hle. congruence.
Qed.

Lemma tomados_cero l : tomados l 0 = [].
Proof. destruct l; reflexivity. Qed.

(** *** Optimality of the greedy value *)

Local Abbreviation G l c := (valor_obtenido (tomados l c)).

Lemma valor_fraccion rho a d :
  0 < peso a -> acotado rho a -> 0 <= d -> valor a * (d / peso a) <= rho * d.
Proof.
  unfold acotado. intros Hp Ha Hd.
  assert (E : valor a * (d / peso a) == (valor a * d) / peso a) by (field; lra).
  rewrite E. apply Qle_shift_div_r; [assumption|]. nra.
Qed.

(** No list of items bounded by [rho] is worth more than [rho] per unit
    of capacity. *)
Lemma G_cota l : forall c rho,
  0 <= rho -> 0 <= c ->
  Forall (fun a => 0 < peso a) l -> Forall (acotado rho) l ->
  G l c <= rho * c.
Proof.
  unfold valor_obtenido.
  induction l as [|a l IH]; intros c rho Hr Hc Hp Hb; simpl; [nra|].
  inversion Hp as [|? ? Hpa Hp']; subst.
  inversion Hb as [|? ? Hba Hb']; subst.
  destruct (Qle_bool c 0) eqn:Ec; [simpl; nra|].
  apply Qle_bool_false in Ec.
  destruct (Qle_bool (peso a) c) eqn:Ea.
  - apply Qle_bool_iff in Ea. simpl.
    specialize (IH (c - peso a) rho Hr ltac:(lra) Hp' Hb').
    unfold acotado in Hba. nra.
  - apply Qle_bool_false in Ea. rewrite tomados_cero. simpl.
    pose proof (valor_fraccion rho a c Hpa Hba Hc). lra.
Qed.

(** More capacity is worth at most [rho] per unit added. *)
Lemma G_incremento l : forall c c' rho,
  0 <= rho -> 0 <= c -> c <= c' ->
  Forall (fun a => 0 < peso a) l -> Forall (acotado rho) l ->
  G l c' <= G l c + rho * (c' - c).
Proof.
  induction l as [|a l IH]; intros c c' rho Hr Hc Hcc Hp Hb.
  { unfold valor_obtenido. simpl. nra. }
  inversion Hp as [|? ? Hpa Hp']; subst.
  inversion Hb as [|? ? Hba Hb']; subst.
  pose proof (G_cota (a :: l) c' rho Hr ltac:(lra) Hp Hb) as Hcota'.
  simpl in *.
  destruct (Qle_bool c 0) eqn:Ec.
  { apply Qle_bool_iff in Ec. unfold valor_obtenido at 2. simpl. nra. }
  apply Qle_bool_false in Ec. clear Hcota'.
  assert (Ec' : Qle_bool c' 0 = false).
  { destruct (Qle_bool c' 0) eqn:E; [|reflexivity].
    apply Qle_bool_iff in E. lra. }
  rewrite Ec'.
  destruct (Qle_bool (peso a) c) eqn:Ea.
  - apply Qle_bool_iff in Ea.
    assert (Ea' : Qle_bool (peso a) c' = true) by (apply Qle_bool_iff; lra).
    rewrite Ea'.
    specialize (IH (c - peso a) (c' - peso a) rho Hr ltac:(lra) ltac:(lra) Hp' Hb').
    unfold valor_obtenido in *. simpl. lra.
  - apply Qle_bool_false in Ea.
    destruct (Qle_bool (peso a) c') eqn:Ea'.
    + apply Qle_bool_iff in Ea'.
      pose proof (G_cota l (c' - peso a) rho Hr ltac:(lra) Hp' Hb') as Hk.
      rewrite tomados_cero.
      pose proof (valor_fraccion rho a (peso a - c) Hpa Hba ltac:(lra)) as Hf.
      assert (E : valor a * (c / peso a) + valor a * ((peso a - c) / peso a)
                  == valor a) by (field; lra).
      unfold valor_obtenido in *. simpl. lra.
    + apply Qle_bool_false in Ea'. rewrite !tomados_cero.
      pose proof (valor_fraccion rho a (c' - c) Hpa Hba ltac:(lra)) as Hf.
      assert (E : valor a * (c / peso a) + valor a * ((c' - c) / peso a)
                  == valor a * (c' / peso a)) by (field; lra).
      unfold valor_obtenido in *. simpl. lra.
Qed.

(** Fractions of items bounded by [rho] are worth at most [rho] per unit
    of weight taken. *)
Lemma valor_obtenido_cota ps : forall rho,
  Forall (fun af => 0 <= snd af) ps ->
  Forall (fun af => acotado rho (fst af)) ps ->
  valor_obtenido ps <= rho * peso_usado ps.
Proof.
  unfold valor_obtenido, peso_usado, acotado.
  induction ps as [|[a x] ps IH]; intros rho Hx Hb; simpl; [lra|].
  inversion Hx as [|? ? Hxa Hx']; subst.
  inversion Hb as [|? ? Hba Hb']; subst. simpl in *.
  specialize (IH rho Hx' Hb'). nra.
Qed.

Lemma rinde_mas_acotado a b :
  0 < peso a -> rinde_mas a b -> acotado (valor a / peso a) b.
Proof.
  unfold rinde_mas, acotado. intros Hp H.
  assert (E : valor a / peso a * peso b == (valor a * peso b) / peso a)
    by (field; lra).
  rewrite E. apply Qle_shift_div_l; assumption.
Qed.

(** The exchange argument, on the items in the order the loop visits
    them: fractions [x] of items sorted by value per weight, taking at
    most the capacity [c], are worth at most what the loop takes. *)
Lemma voraz_optimo_ordenado ps : forall c,
  0 <= c ->
  Forall (fun af => 0 < peso (fst af) /\ 0 <= valor (fst af) /\
                    0 <= snd af /\ snd af <= 1) ps ->
  StronglySorted rinde_mas (map fst ps) ->
  peso_usado ps <= c ->
  valor_obtenido ps <= G (map fst ps) c.
Proof.
  induction ps as [|[a x] ps IH]; intros c Hc Hps Hs Hw.
  { unfold valor_obtenido. simpl. lra. }
  inversion Hps as [|? ? (Hpa & Hva & Hx0 & Hx1) Hps']; subst.
  simpl in Hs. inversion Hs as [|? ? Hs' Hab]; subst. simpl in *.
  set (rho := valor a / peso a).
  assert (Hrho : 0 <= rho) by (apply Qle_shift_div_l; lra).
  assert (Erho : rho * peso a == valor a) by (unfold rho; field; lra).
  assert (Hba : acotado rho a) by (unfold acotado; lra).
  assert (Hb : Forall (acotado rho) (map fst ps)).
  { eapply Forall_impl; [|exact Hab]. intros b. now apply rinde_mas_acotado. }
  assert (Hp' : Forall (fun a => 0 < peso a) (map fst ps)).
  { apply Forall_map. eapply Forall_impl; [|exact Hps']. simpl. tauto. }
  assert (Hcota : valor_obtenido ((a, x) :: ps) <= rho * peso_usado ((a, x) :: ps)).
  { apply valor_obtenido_cota.
    - eapply Forall_impl; [|exact Hps]. simpl. tauto.
    - constructor; [exact Hba|]. apply (proj1 (Forall_map _ _ _) Hb). }
  change (peso_usado ((a, x) :: ps)) with (peso a * x + peso_usado ps) in *.
  change (valor_obtenido ((a, x) :: ps)) with (valor a * x + valor_obtenido ps) in *.
  destruct (Qle_bool c 0) eqn:Ec.
  { apply Qle_bool_iff in Ec. unfold valor_obtenido at 2. simpl. nra. }
  apply Qle_bool_false in Ec.
  destruct (Qle_bool (peso a) c) eqn:Ea.
  - apply Qle_bool_iff in Ea.
    assert (Hcx : 0 <= c - peso a * x) by nra.
    specialize (IH (c - peso a * x) Hcx Hps' Hs' ltac:(lra)).
    pose proof (G_incremento (map fst ps) (c - peso a) (c - peso a * x) rho
                  Hrho ltac:(lra) ltac:(nra) Hp' Hb) as Hinc.
    change (valor_obtenido ((a, 1) :: tomados (map fst ps) (c - peso a)))
      with (valor a * 1 + G (map fst ps) (c - peso a)).
    nra.
  - apply Qle_bool_false in Ea. rewrite tomados_cero.
    change (valor_obtenido [(a, c / peso a)])
      with (valor a * (c / peso a) + 0).
    assert (E : valor a * (c / peso a) == rho * c) by (unfold rho; field; lra).
    nra.
Qed.

Lemma valor_obtenido_perm ps ps' :
  Permutation ps ps' -> valor_obtenido ps == valor_obtenido ps'.
Proof.
  unfold valor_obtenido.
  induction 1 as [|a l l' _ IH|a b l|l l' l'' _ IH1 _ IH2]; simpl; lra.
Qed.

Lemma peso_usado_perm ps ps' :
  Permutation ps ps' -> peso_usado ps == peso_usado ps'.
Proof.
  unfold peso_usado.
  induction 1 as [|a l l' _ IH|a b l|l l' l'' _ IH1 _ IH2]; simpl; lra.
Qed.

Lemma peso_total_perm l l' :
  Permutation l l' -> peso_total l == peso_total l'.
Proof.
  unfold peso_total.
  induction 1 as [|a l l' _ IH|a b l|l l' l'' _ IH1 _ IH2]; simpl; lra.
Qed.

Lemma mayor_ratio_total a b :
  mayor_ratio a b = true \/ mayor_ratio b a = true.
Proof.
  unfold mayor_ratio. destruct (Qle_bool (ratio b) (ratio a)) eqn:E; [now left|].
  right. apply Qle_bool_false in E. apply Qle_bool_iff. lra.
Qed.

Lemma mayor_ratio_trans a b c :
  mayor_ratio a b = true -> mayor_ratio b c = true -> mayor_ratio a c = true.
Proof.
  unfold mayor_ratio. rewrite !Qle_bool_iff. lra.
Qed.

Lemma combine_map_fst {A B : Type} (l : list A) : forall (xs : list B),
  List.length xs = List.length l -> map fst (combine l xs) = l.
Proof.
  induction l as [|a l IH]; intros [|x xs] H; simpl in *;
    try discriminate; [reflexivity|].
  f_equal. apply IH. congruence.
Qed.

Lemma mayor_ratio_rinde_mas a b :
  ratio a * peso a == valor a -> ratio b * peso b == valor b ->
  0 < peso a -> 0 < peso b ->
  mayor_ratio a b = true -> rinde_mas a b.
Proof.
  intros Ea Eb Hpa Hpb. unfold mayor_ratio, rinde_mas.
  rewrite Qle_bool_iff. intro H.
  assert (0 < peso a * peso b) by nra.
  rewrite <- Ea, <- Eb. nra.
Qed.

(** The value of what is taken depends on the capacity as a rational,
    not on the fraction that writes it. *)
Lemma G_Qeq l : forall c c', c == c' -> G l c == G l c'.
Proof.
  induction l as [|a l IH]; intros c c' Hc; [reflexivity|]. simpl.
  assert (E0 : Qle_bool c 0 = Qle_bool c' 0).
  { destruct (Qle_bool c 0) eqn:E1, (Qle_bool c' 0) eqn:E2; try reflexivity.
    - apply Qle_bool_iff in E1. apply Qle_bool_false in E2. lra.
    - apply Qle_bool_iff in E2. apply Qle_bool_false in E1. lra. }
  assert (E1 : Qle_bool (peso a) c = Qle_bool (peso a) c').
  { destruct (Qle_bool (peso a) c) eqn:E1, (Qle_bool (peso a) c') eqn:E2;
      try reflexivity.
    - apply Qle_bool_iff in E1. apply Qle_bool_false in E2. lra.
    - apply Qle_bool_iff in E2. apply Qle_bool_false in E1. lra. }
  rewrite <- E0, <- E1.
  destruct (Qle_bool c 0) eqn:Ec; [reflexivity|].
  apply Qle_bool_false in Ec.
  destruct (Qle_bool (peso a) c) eqn:Ea.
  - specialize (IH (c - peso a) (c' - peso a) ltac:(lra)).
    unfold valor_obtenido in *. simpl. lra.
  - apply Qle_bool_false in Ea. rewrite !tomados_cero.
    unfold valor_obtenido. simpl.
    assert (E : c / peso a == c' / peso a) by (rewrite Hc; reflexivity).
    rewrite E. reflexivity.
Qed.

(** Optimality of the greedy value, for items whose ratio orders them as
    value per unit of weight does. *)
Lemma optimo_por_G articulos capacidad total :
  Forall (fun a => 0 < peso a) articulos ->
  Forall (fun a => 0 <= valor a) articulos ->
  0 <= capacidad ->
  (forall a b, In a articulos -> In b articulos ->
     mayor_ratio a b = true -> rinde_mas a b) ->
  total == G (py_sorted mayor_ratio articulos) capacidad ->
  optimo_fraccionario articulos capacidad total.
Proof.
  intros Hpos Hval Hcap Hrinde Ht xs [Hlen Hxs] Hcabe Hlt.
  unfold cabe in Hcabe.
  set (ps0 := combine articulos xs) in *.
  set (ps := py_sorted (fun p q => mayor_ratio (fst p) (fst q)) ps0).
  assert (Hperm : Permutation ps ps0) by apply py_sorted_perm.
  assert (Hfst : map fst ps = py_sorted mayor_ratio articulos).
  { unfold ps. rewrite py_sorted_map. unfold ps0.
    now rewrite combine_map_fst. }
  assert (Hin : forall af, In af ps -> In (fst af) articulos /\ In (snd af) xs).
  { intros [a x] Haf. apply (Permutation_in _ Hperm) in Haf. unfold ps0 in Haf.
    split; [eapply in_combine_l | eapply in_combine_r]; exact Haf. }
  rewrite Forall_forall in Hpos, Hval, Hxs.
  assert (Hps : Forall (fun af => 0 < peso (fst af) /\ 0 <= valor (fst af) /\
                          0 <= snd af /\ snd af <= 1) ps).
  { apply Forall_forall. intros af Haf. destruct (Hin af Haf) as [Ha Hx].
    specialize (Hxs _ Hx). split; [auto|]. split; [auto|]. exact Hxs. }
  assert (Hs : StronglySorted rinde_mas (map fst ps)).
  { rewrite Hfst.
    eapply StronglySorted_impl_In;
      [|apply (py_sorted_ordenada mayor_ratio mayor_ratio_total mayor_ratio_trans)].
    intros a b Ha Hb.
    apply (Permutation_in _ (py_sorted_perm mayor_ratio articulos)) in Ha, Hb.
    now apply Hrinde. }
  pose proof (voraz_optimo_ordenado ps capacidad Hcap Hps Hs) as Hopt.
  pose proof (valor_obtenido_perm _ _ Hperm) as Ev.
  pose proof (peso_usado_perm _ _ Hperm) as Ew.
  rewrite Hfst in Hopt.
  assert (Hle : peso_usado ps <= capacidad) by (rewrite Ew; exact Hcabe).
  specialize (Hopt Hle).
  rewrite <- Ev in Hlt. rewrite Ht in Hlt.
  apply Qlt_not_le in Hlt. contradiction.
Qed.
End MochilaFacts.

(** ** The knapsack on the numbers of Python *)

Lemma Qle_bool_compare x y :
  Qle_bool x y = match (x ?= y)%Q with Gt => false | _ => true end.
Proof.
  unfold Qle_bool, Qcompare. rewrite Z.leb_compare. reflexivity.
Qed.

Lemma Py_real_exacto a :
  Py.finito a = true -> Py.exacto a = Py.Finito (Py.real a).
Proof.
  unfold Py.finito, Py.real. destruct (Py.exacto a); congruence.
Qed.

(** Between finite numbers, the comparisons of Python are those of the
    rationals the numbers stand for. *)
Lemma Py_le_real a b :
  Py.finito a = true -> Py.finito b = true ->
  Py.le a b = Qle_bool (Py.real a) (Py.real b).
Proof.
  intros Ha Hb. unfold Py.le, Py.comparar.
  rewrite (Py_real_exacto a Ha), (Py_real_exacto b Hb), Qle_bool_compare.
  destruct (Py.real a ?= Py.real b)%Q; reflexivity.
Qed.

Lemma Py_lt_real a b :
  Py.finito a = true -> Py.finito b = true ->
  Py.lt a b = negb (Qle_bool (Py.real b) (Py.real a)).
Proof.
  intros Ha Hb. unfold Py.lt, Py.comparar.
  rewrite (Py_real_exacto a Ha), (Py_real_exacto b Hb), Qle_bool_compare.
  rewrite <- (Qcompare_antisym (Py.real a) (Py.real b)).
  destruct (Py.real a ?= Py.real b)%Q; reflexivity.
Qed.

(** A number above 0 is not 0. *)
Lemma Py_gt_cero_no_es_cero p :
  Py.gt p Py.cero = true -> Py.es_cero p = false.
Proof.
  unfold Py.gt, Py.lt, Py.comparar, Py.es_cero, Py.cero.
  destruct p as [z|f]; simpl.
  - unfold Qcompare. simpl. rewrite Z.mul_1_r.
    destruct z; simpl; congruence.
  - destruct (FloatOps.Prim2SF f); simpl; congruence.
Qed.

(** The division raises [ZeroDivisionError] only on a divisor that is 0. *)
Lemma Py_a_flotante_error a e :
  Py.a_flotante a = Py.Raise e -> e = Py.OverflowError.
Proof.
  destruct a as [z|f]; simpl; [|discriminate].
  destruct (SpecFloat.binary_normalize _ _ z 0 false); congruence.
Qed.

Lemma Py_truediv_cero a b :
  Py.truediv a b = Py.Raise Py.ZeroDivisionError -> Py.es_cero b = true.
Proof.
  intro H. destruct (Py.es_cero b) eqn:E; [reflexivity|]. exfalso.
  revert H. unfold Py.truediv.
  assert (Hmixto :
    Py.bind (Py.a_flotante a) (fun x =>
      Py.bind (Py.a_flotante b) (fun y =>
        if Py.es_cero b then Py.Raise Py.ZeroDivisionError
        else Py.Ok (Py.Flotante (PrimFloat.div x y))))
    <> Py.Raise Py.ZeroDivisionError).
  { rewrite E.
    destruct (Py.a_flotante a) as [x|e] eqn:Ea; cbn [Py.bind].
    - destruct (Py.a_flotante b) as [y|e] eqn:Eb; cbn [Py.bind];
        [discriminate|].
      apply Py_a_flotante_error in Eb. subst. discriminate.
    - apply Py_a_flotante_error in Ea. subst. discriminate. }
  destruct a as [x|f], b as [y|g]; try exact Hmixto.
  rewrite E. destruct (Py.cociente_redondeado x y); discriminate.
Qed.

Lemma Py_le_no_gt a b : Py.le a b = true -> Py.gt a b = false.
Proof.
  unfold Py.le, Py.gt, Py.lt, Py.comparar.
  destruct (Py.exacto a) as [x|s|], (Py.exacto b) as [y|s'|]; try discriminate.
  - rewrite <- (Qcompare_antisym x y). destruct (x ?= y)%Q; simpl; congruence.
  - destruct s'; congruence.
  - destruct s; congruence.
  - destruct s, s'; simpl; congruence.
Qed.

(** Once the capacity is the [0] the loop assigns after a cut, the loop
    takes nothing more. *)
Lemma Py_mochila_bucle_cero l m v :
  Py.mochila_bucle l m Py.cero v = Py.Ok (m, v).
Proof. destruct l; reflexivity. Qed.

(** The shape of what the loop appends: items taken whole, in the order
    visited, then at most one item cut. *)
Lemma Py_mochila_bucle_forma l : forall m c v m' v',
  Py.mochila_bucle l m c v = Py.Ok (m', v') ->
  exists enteros corte resto,
    m' = m ++ map (fun a => (a, Py.uno_punto_cero)) enteros ++ corte /\
    l = enteros ++ map fst corte ++ resto /\
    (corte = [] \/
     exists a c' f,
       corte = [(a, f)] /\
       Py.capacidad_tras c enteros = Py.Ok c' /\
       Py.le c' Py.cero = false /\
       Py.le (Py.Articulo.peso a) c' = false /\
       Py.truediv c' (Py.Articulo.peso a) = Py.Ok f).
Proof.
  induction l as [|a l IH]; intros m c v m' v' H; simpl in H.
  - injection H as <- <-. exists [], [], []. rewrite app_nil_r. auto.
  - destruct (Py.le c Py.cero) eqn:Ec.
    { injection H as <- <-. exists [], [], (a :: l). rewrite app_nil_r. auto. }
    destruct (Py.le (Py.Articulo.peso a) c) eqn:Ea.
    + destruct (Py.add v (Py.Articulo.valor a)) as [v1|e];
        cbn [Py.bind] in H; [|discriminate].
      destruct (Py.sub c (Py.Articulo.peso a)) as [c1|e] eqn:Es;
        cbn [Py.bind] in H; [|discriminate].
      destruct (IH _ _ _ _ _ H) as (enteros & corte & resto & Hm & Hl & Hc).
      exists (a :: enteros), corte, resto.
      split; [rewrite Hm, <- app_assoc; reflexivity|].
      split; [simpl; congruence|].
      destruct Hc as [->|(b & c' & f & -> & Ht & H1 & H2 & H3)]; [now left|].
      right. exists b, c', f. repeat split; try assumption.
      simpl. rewrite Es. exact Ht.
    + destruct (Py.truediv c (Py.Articulo.peso a)) as [f|e] eqn:Ed;
        cbn [Py.bind] in H; [|discriminate].
      destruct (Py.mul (Py.Articulo.valor a) f) as [w|e];
        cbn [Py.bind] in H; [|discriminate].
      destruct (Py.add v w) as [v1|e]; cbn [Py.bind] in H; [|discriminate].
      rewrite Py_mochila_bucle_cero in H.
      injection H as <- <-.
      exists [], [(a, f)], l. split; [reflexivity|]. split; [reflexivity|].
      right. exists a, c, f. repeat split; assumption.
Qed.

Section CorridaExacta.
Local Open Scope Q_scope.

Local Abbreviation G l c := (valor_obtenido (tomados l c)).

Lemma Py_suma_exacta a b c :
  Py.suma_exacta a b = Some c ->
  Py.add a b = Py.Ok c /\ Py.finito c = true /\
  Py.real c == Py.real a + Py.real b.
Proof.
  unfold Py.suma_exacta. destruct (Py.add a b) as [c'|e]; [|discriminate].
  destruct (Py.finito c' && Qeq_bool (Py.real c') (Py.real a + Py.real b))%bool
    eqn:E; [|discriminate].
  intro H. injection H as <-. apply andb_true_iff in E. destruct E as [Hf He].
  apply Qeq_bool_iff in He. auto.
Qed.

Lemma Py_resta_exacta a b c :
  Py.resta_exacta a b = Some c ->
  Py.sub a b = Py.Ok c /\ Py.finito c = true /\
  Py.real c == Py.real a - Py.real b.
Proof.
  unfold Py.resta_exacta. destruct (Py.sub a b) as [c'|e]; [|discriminate].
  destruct (Py.finito c' && Qeq_bool (Py.real c') (Py.real a - Py.real b))%bool
    eqn:E; [|discriminate].
  intro H. injection H as <-. apply andb_true_iff in E. destruct E as [Hf He].
  apply Qeq_bool_iff in He. auto.
Qed.

Lemma Py_producto_exacto a b c :
  Py.producto_exacto a b = Some c ->
  Py.mul a b = Py.Ok c /\ Py.finito c = true /\
  Py.real c == Py.real a * Py.real b.
Proof.
  unfold Py.producto_exacto. destruct (Py.mul a b) as [c'|e]; [|discriminate].
  destruct (Py.finito c' && Qeq_bool (Py.real c') (Py.real a * Py.real b))%bool
    eqn:E; [|discriminate].
  intro H. injection H as <-. apply andb_true_iff in E. destruct E as [Hf He].
  apply Qeq_bool_iff in He. auto.
Qed.

Lemma Py_cociente_exacto a b c :
  Py.cociente_exacto a b = Some c ->
  Py.truediv a b = Py.Ok c /\ Py.finito c = true /\
  Py.real c * Py.real b == Py.real a.
Proof.
  unfold Py.cociente_exacto. destruct (Py.truediv a b) as [c'|e]; [|discriminate].
  destruct (Py.finito c' && Qeq_bool (Py.real c' * Py.real b) (Py.real a))%bool
    eqn:E; [|discriminate].
  intro H. injection H as <-. apply andb_true_iff in E. destruct E as [Hf He].
  apply Qeq_bool_iff in He. auto.
Qed.

Lemma Py_real_uno : Py.real Py.uno_punto_cero == 1.
Proof. vm_compute. reflexivity. Qed.

(** An exact run computes what the loop over the rationals computes: the
    entries [s] it appends are worth what [tomados] is worth, the total
    grows by their value, they weigh no more than the capacity, and all
    of it when the items weigh that much. *)
Lemma Py_mochila_bucle_exacto l : forall m c v,
  Py.finito c = true -> Py.finito v = true -> 0 <= Py.real c ->
  Forall (fun a => Py.finito (Py.Articulo.peso a) = true /\
                   0 < Py.real (Py.Articulo.peso a)) l ->
  Py.corrida_exacta l c v = true ->
  exists s v',
    Py.mochila_bucle l m c v = Py.Ok (m ++ s, v') /\
    Py.finito v' = true /\
    Py.real v' == Py.real v + valor_obtenido (map tomado_racional s) /\
    valor_obtenido (map tomado_racional s) == G (map racional l) (Py.real c) /\
    Forall (fun p => Py.finito (snd p) = true /\
                     0 < Py.real (snd p) /\ Py.real (snd p) <= 1) s /\
    peso_usado (map tomado_racional s) <= Py.real c /\
    (Py.real c <= peso_total (map racional l) ->
     peso_usado (map tomado_racional s) == Py.real c).
Proof.
  induction l as [|a l IH]; intros m c v Hc Hv Hc0 Hl Hex.
  - exists [], v. rewrite app_nil_r.
    unfold valor_obtenido, peso_usado, peso_total. simpl.
    repeat split; try assumption; try constructor; try lra.
  - inversion Hl as [|? ? [Hpa Hpos] Hl']; subst.
    cbn [Py.corrida_exacta] in Hex. cbn [Py.mochila_bucle map tomados].
    change (Articulo.peso (racional a)) with (Py.real (Py.Articulo.peso a)).
    rewrite (Py_le_real c Py.cero Hc eq_refl) in *.
    change (Py.real Py.cero) with 0 in *.
    destruct (Qle_bool (Py.real c) 0) eqn:Ec.
    { apply Qle_bool_iff in Ec.
      exists [], v. rewrite app_nil_r.
      unfold valor_obtenido, peso_usado. simpl.
      repeat split; try assumption; try constructor; try lra. }
    apply Qle_bool_false in Ec.
    rewrite (Py_le_real _ c Hpa Hc) in *.
    destruct (Qle_bool (Py.real (Py.Articulo.peso a)) (Py.real c)) eqn:Ea.
    + apply Qle_bool_iff in Ea.
      destruct (Py.suma_exacta v (Py.Articulo.valor a)) as [v1|] eqn:Es;
        [|discriminate].
      destruct (Py.resta_exacta c (Py.Articulo.peso a)) as [c1|] eqn:Er;
        [|discriminate].
      apply Py_suma_exacta in Es. destruct Es as (Es & Hv1 & Rv1).
      apply Py_resta_exacta in Er. destruct Er as (Er & Hc1 & Rc1).
      rewrite Es, Er. cbn [Py.bind].
      destruct (IH (m ++ [(a, Py.uno_punto_cero)]) c1 v1 Hc1 Hv1
                  ltac:(lra) Hl' Hex)
        as (s & v' & Hb & Hv' & Rv' & Rg & Hf & Hw & Hw').
      exists ((a, Py.uno_punto_cero) :: s), v'.
      split; [rewrite Hb, <- app_assoc; reflexivity|].
      split; [exact Hv'|].
      pose proof Py_real_uno as Huno.
      pose proof (G_Qeq (map racional l) (Py.real c1)
                    (Py.real c - Py.real (Py.Articulo.peso a)) Rc1) as HG.
      unfold valor_obtenido, peso_usado, peso_total in *.
      cbn [map fold_right tomado_racional fst snd racional
           Articulo.peso Articulo.valor] in *.
      split; [rewrite Rv', Rv1, Huno; lra|].
      split; [rewrite Rg, HG, Huno; lra|].
      split.
      { constructor; [|exact Hf]. cbn [snd].
        split; [reflexivity|]. rewrite Huno. lra. }
      split; [rewrite Huno; lra|].
      intro Ht. rewrite Huno. rewrite Hw'; lra.
    + apply Qle_bool_false in Ea.
      destruct (Py.cociente_exacto c (Py.Articulo.peso a)) as [f|] eqn:Ed;
        [|discriminate].
      destruct (Py.producto_exacto (Py.Articulo.valor a) f) as [w|] eqn:Ep;
        [|discriminate].
      destruct (Py.suma_exacta v w) as [v1|] eqn:Es; [|discriminate].
      apply Py_cociente_exacto in Ed. destruct Ed as (Ed & Hf & Rf).
      apply Py_producto_exacto in Ep. destruct Ep as (Ep & Hw & Rw).
      apply Py_suma_exacta in Es. destruct Es as (Es & Hv1 & Rv1).
      rewrite Ed. cbn [Py.bind]. rewrite Ep. cbn [Py.bind].
      rewrite Es. cbn [Py.bind]. rewrite Py_mochila_bucle_cero.
      exists [(a, f)], v1. split; [reflexivity|]. split; [exact Hv1|].
      rewrite tomados_cero.
      assert (E : Py.real c / Py.real (Py.Articulo.peso a) == Py.real f)
        by (rewrite <- Rf; field; lra).
      assert (Hf0 : 0 < Py.real f).
      { rewrite <- E. apply Qlt_shift_div_l; lra. }
      assert (Hf1 : Py.real f <= 1).
      { rewrite <- E. apply Qle_shift_div_r; lra. }
      unfold valor_obtenido, peso_usado.
      cbn [map fold_right tomado_racional fst snd racional
           Articulo.peso Articulo.valor].
      split; [rewrite Rv1, Rw; lra|].
      split; [rewrite E; lra|].
      split; [repeat constructor; assumption|].
      split; [rewrite Qmult_comm, Rf; lra|].
      intros _. rewrite Qmult_comm, Rf. lra.
Qed.
End CorridaExacta.

(** On items whose ratios are finite, the order of [sorted] is the order
    of the ratios as rationals. *)
Lemma Py_mayor_ratio_racional a b :
  Py.finito (Py.Articulo.ratio a) = true ->
  Py.finito (Py.Articulo.ratio b) = true ->
  Py.mayor_ratio a b = mayor_ratio (racional a) (racional b).
Proof.
  intros Ha Hb. unfold Py.mayor_ratio, mayor_ratio.
  rewrite (Py_lt_real _ _ Ha Hb), negb_involutive. reflexivity.
Qed.

Lemma Py_sorted_racional l :
  Forall (fun a => Py.finito (Py.Articulo.ratio a) = true) l ->
  map racional (py_sorted Py.mayor_ratio l)
  = py_sorted mayor_ratio (map racional l).
Proof.
  intro H. rewrite Forall_forall in H.
  apply py_sorted_map_en. intros a b Ha Hb.
  apply Py_mayor_ratio_racional; auto.
Qed.

Lemma Py_ratio_exacto a :
  Py.ratio_exacto a = true ->
  Py.finito (Py.Articulo.peso a) = true /\
  Py.finito (Py.Articulo.valor a) = true /\
  Py.finito (Py.Articulo.ratio a) = true /\
  (Py.real (Py.Articulo.ratio a) * Py.real (Py.Articulo.peso a)
   == Py.real (Py.Articulo.valor a))%Q.
Proof.
  unfold Py.ratio_exacto. rewrite !andb_true_iff, Qeq_bool_iff. tauto.
Qed.

(** The greedy run on items without rounding: it returns, its total is
    the value of the selection, the selection fits, and no assignment
    that fits is worth more. *)
Lemma Py_mochila_exacta_optima articulos capacidad :
  Forall (fun a => Py.ratio_exacto a = true) articulos ->
  Forall (fun a => (0 < Py.real (Py.Articulo.peso a))%Q) articulos ->
  Forall (fun a => (0 <= Py.real (Py.Articulo.valor a))%Q) articulos ->
  Py.finito capacidad = true -> (0 <= Py.real capacidad)%Q ->
  Py.corrida_exacta (py_sorted Py.mayor_ratio articulos) capacidad
    Py.cero_punto_cero = true ->
  exists mochila total,
    Py.mochila_fraccionaria_voraz articulos capacidad = Py.Ok (mochila, total) /\
    Py.finito total = true /\
    (Py.real total == valor_obtenido (map tomado_racional mochila))%Q /\
    Forall (fun p => Py.finito (snd p) = true /\
                     (0 < Py.real (snd p))%Q /\ (Py.real (snd p) <= 1)%Q)
      mochila /\
    (peso_usado (map tomado_racional mochila) <= Py.real capacidad)%Q /\
    ((Py.real capacidad <= peso_total (map racional articulos))%Q ->
     (peso_usado (map tomado_racional mochila) == Py.real capacidad)%Q) /\
    optimo_fraccionario (map racional articulos) (Py.real capacidad)
      (Py.real total).
Proof.
  intros Hex Hpos Hval Hc Hc0 Hrun.
  set (ord := py_sorted Py.mayor_ratio articulos) in *.
  assert (Hperm : Permutation articulos ord)
    by (symmetry; apply py_sorted_perm).
  assert (Hord : Forall (fun a => Py.finito (Py.Articulo.peso a) = true /\
                                  (0 < Py.real (Py.Articulo.peso a))%Q) ord).
  { eapply Permutation_Forall; [exact Hperm|].
    rewrite Forall_forall in *. intros a Ha. split; [|auto].
    apply (Py_ratio_exacto a (Hex a Ha)). }
  destruct (Py_mochila_bucle_exacto ord [] capacidad Py.cero_punto_cero
              Hc eq_refl Hc0 Hord Hrun)
    as (s & total & Hb & Hft & Rt & Rg & Hf & Hw & Hw').
  change (Py.real Py.cero_punto_cero) with 0%Q in Rt.
  exists s, total. split; [exact Hb|]. split; [exact Hft|].
  split; [rewrite Rt; lra|]. split; [exact Hf|]. split; [exact Hw|].
  assert (Hfin : Forall (fun a => Py.finito (Py.Articulo.ratio a) = true)
                   articulos).
  { rewrite Forall_forall in *. intros a Ha.
    apply (Py_ratio_exacto a (Hex a Ha)). }
  split.
  { intro Ht. apply Hw'.
    pose proof (peso_total_perm _ _ (Permutation_map racional Hperm)) as E.
    rewrite <- E. exact Ht. }
  apply optimo_por_G.
  - rewrite Forall_map. exact Hpos.
  - rewrite Forall_map. exact Hval.
  - exact Hc0.
  - intros a b Ha Hb'. apply in_map_iff in Ha, Hb'.
    destruct Ha as (a0 & <- & Ha), Hb' as (b0 & <- & Hb').
    rewrite Forall_forall in Hex, Hpos.
    destruct (Py_ratio_exacto a0 (Hex a0 Ha)) as (_ & _ & _ & Ea).
    destruct (Py_ratio_exacto b0 (Hex b0 Hb')) as (_ & _ & _ & Eb).
    apply mayor_ratio_rinde_mas;
      [exact Ea|exact Eb|exact (Hpos _ Ha)|exact (Hpos _ Hb')].
  - rewrite <- (Py_sorted_racional articulos Hfin). fold ord.
    rewrite Rt, Rg. lra.
Qed.

Lemma Py_ratio_no_menor_total a b :
  Py.ratio_no_menor a b = true \/ Py.ratio_no_menor b a = true.
Proof. apply (mayor_ratio_total (racional a) (racional b)). Qed.

Lemma Py_ratio_no_menor_trans a b c :
  Py.ratio_no_menor a b = true -> Py.ratio_no_menor b c = true ->
  Py.ratio_no_menor a c = true.
Proof. apply (mayor_ratio_trans (racional a) (racional b) (racional c)). Qed.

Lemma Py_sorted_ratio_no_menor l :
  Forall (fun a => Py.finito (Py.Articulo.ratio a) = true) l ->
  py_sorted Py.mayor_ratio l = py_sorted Py.ratio_no_menor l.
Proof.
  intro H. rewrite Forall_forall in H.
  rewrite <- (map_id (py_sorted Py.mayor_ratio l)).
  rewrite <- (map_id l) at 2.
  apply py_sorted_map_en. intros a b Ha Hb.
  apply Py_mayor_ratio_racional; auto.
Qed.







(** ** Results on the knapsack *)

(** C2, as stated, fails: the items are ordered by the ratio the
    constructor stores, which is a rounded quotient, and two items of
    different value per weight can tie. [Articulo(3, 6755399441055745)]
    and [Articulo(3, 6755399441055746)] have the same ratio,
    2251799813685248.5; in that order and with capacity 3 the first is
    taken whole and the total is 6755399441055745.0, below the
    6755399441055746.0 the function itself returns for the same items in
    the other order, which is the value of taking the second item alone. *)
Lemma mochila_empate_por_redondeo :
  exists a b ma ta mb tb,
    Py.Articulo.init (Py.Entero 3) (Py.Entero 6755399441055745) "A" = Py.Ok a /\
    Py.Articulo.init (Py.Entero 3) (Py.Entero 6755399441055746) "B" = Py.Ok b /\
    Py.gt (Py.Articulo.peso a) Py.cero = true /\
    Py.gt (Py.Articulo.peso b) Py.cero = true /\
    Py.le Py.cero (Py.Articulo.valor a) = true /\
    Py.le Py.cero (Py.Articulo.valor b) = true /\
    Py.le Py.cero (Py.Entero 3) = true /\
    Py.mochila_fraccionaria_voraz [a; b] (Py.Entero 3) = Py.Ok (ma, ta) /\
    Py.mochila_fraccionaria_voraz [b; a] (Py.Entero 3) = Py.Ok (mb, tb) /\
    Py.lt ta tb = true /\
    asignacion (map racional [a; b]) [0; 1]%Q /\
    cabe (map racional [a; b]) [0; 1]%Q (Py.real (Py.Entero 3)) /\
    (Py.real ta < valor_obtenido (combine (map racional [a; b]) [0; 1]))%Q /\
    ~ optimo_fraccionario (map racional [a; b]) (Py.real (Py.Entero 3))
        (Py.real ta).
Proof.
  eexists _, _, _, _, _, _.
  split; [vm_compute; reflexivity|]. split; [vm_compute; reflexivity|].
  split; [vm_compute; reflexivity|]. split; [vm_compute; reflexivity|].
  split; [vm_compute; reflexivity|]. split; [vm_compute; reflexivity|].
  split; [vm_compute; reflexivity|]. split; [vm_compute; reflexivity|].
  split; [vm_compute; reflexivity|]. split; [vm_compute; reflexivity|].
  match goal with
  | |- ?asigna /\ _ =>
      assert (Ha : asigna)
        by (split; [reflexivity|repeat constructor; discriminate])
  end.
  split; [exact Ha|].
  split; [vm_compute; discriminate|].
  split; [vm_compute; reflexivity|].
  intro Hopt. apply (Hopt [0; 1]%Q Ha).
  - vm_compute. discriminate.
  - vm_compute. reflexivity.
Qed.

(** C2, amended. For items with positive weights and values that are not
    negative and a capacity that is not negative, when no operation of
    the run rounds (the ratio of every item is its value divided by its
    weight, and every sum, difference, quotient and product the loop
    computes is the exact one), [mochila_fraccionaria_voraz] returns; its
    total is the value of the selection it returns, whose fractions are
    in (0, 1] and whose weight is within the capacity; and the total is
    optimal for the fractional problem: no assignment of fractions
    between 0 and 1 to the items whose weight is within the capacity is
    worth strictly more. For the items of weights 10, 20, 30 and values
    60, 100, 120 and capacity 50 the total value is 240.0. *)
Theorem mochila_optima_sin_redondeo articulos capacidad :
  Forall (fun a => Py.ratio_exacto a = true) articulos ->
  Forall (fun a => (0 < Py.real (Py.Articulo.peso a))%Q) articulos ->
  Forall (fun a => (0 <= Py.real (Py.Articulo.valor a))%Q) articulos ->
  Py.finito capacidad = true -> (0 <= Py.real capacidad)%Q ->
  Py.corrida_exacta (py_sorted Py.mayor_ratio articulos) capacidad
    Py.cero_punto_cero = true ->
  (exists mochila total,
     Py.mochila_fraccionaria_voraz articulos capacidad
     = Py.Ok (mochila, total) /\
     Py.finito total = true /\
     (Py.real total == valor_obtenido (map tomado_racional mochila))%Q /\
     Forall (fun p => (0 < Py.real (snd p))%Q /\ (Py.real (snd p) <= 1)%Q)
       mochila /\
     (peso_usado (map tomado_racional mochila) <= Py.real capacidad)%Q /\
     optimo_fraccionario (map racional articulos) (Py.real capacidad)
       (Py.real total)) /\
  (exists a1 a2 a3 mochila total,
     Py.Articulo.init (Py.Entero 10) (Py.Entero 60) "1" = Py.Ok a1 /\
     Py.Articulo.init (Py.Entero 20) (Py.Entero 100) "2" = Py.Ok a2 /\
     Py.Articulo.init (Py.Entero 30) (Py.Entero 120) "3" = Py.Ok a3 /\
     Py.mochila_fraccionaria_voraz [a1; a2; a3] (Py.Entero 50)
     = Py.Ok (mochila, total) /\
     Py.finito total = true /\ (Py.real total == 240)%Q).
Proof.
  intros Hex Hpos Hval Hc Hc0 Hrun. split.
  - destruct (Py_mochila_exacta_optima articulos capacidad
                Hex Hpos Hval Hc Hc0 Hrun)
      as (mochila & total & Hb & Hft & Rt & Hf & Hw & _ & Hopt).
    exists mochila, total. repeat split; try assumption.
    eapply Forall_impl; [|exact Hf]. intros p Hp. exact (proj2 Hp).
  - eexists _, _, _, _, _.
    split; [vm_compute; reflexivity|]. split; [vm_compute; reflexivity|].
    split; [vm_compute; reflexivity|]. split; [vm_compute; reflexivity|].
    split; vm_compute; reflexivity.
Qed.

Lemma mochila_optima_sin_redondeo_witness :
  exists a1 a2 a3,
    Py.Articulo.init (Py.Entero 10) (Py.Entero 60) "1" = Py.Ok a1 /\
    Py.Articulo.init (Py.Entero 20) (Py.Entero 100) "2" = Py.Ok a2 /\
    Py.Articulo.init (Py.Entero 40) (Py.Entero 120) "3" = Py.Ok a3 /\
    exists mochila total,
      Py.mochila_fraccionaria_voraz [a3; a1; a2] (Py.Entero 50)
      = Py.Ok (mochila, total) /\
      Py.finito total = true /\
      (Py.real total == valor_obtenido (map tomado_racional mochila))%Q /\
      Forall (fun p => (0 < Py.real (snd p))%Q /\ (Py.real (snd p) <= 1)%Q)
        mochila /\
      (peso_usado (map tomado_racional mochila) <= Py.real (Py.Entero 50))%Q /\
      optimo_fraccionario (map racional [a3; a1; a2])
        (Py.real (Py.Entero 50)) (Py.real total).
Proof.
  eexists _, _, _.
  split; [vm_compute; reflexivity|]. split; [vm_compute; reflexivity|].
  split; [vm_compute; reflexivity|].
  refine (proj1 (mochila_optima_sin_redondeo _ _ _ _ _ _ _ _)).
  - repeat constructor.
  - repeat constructor.
  - repeat constructor; vm_compute; discriminate.
  - reflexivity.
  - vm_compute. discriminate.
  - vm_compute. reflexivity.
Defined.

(** C9, as stated, fails: the division of the constructor cannot divide
    by zero, but it can overflow. [Articulo(1, 10**309)] has a positive
    weight and raises [OverflowError], so construction does not always
    succeed. *)
Lemma Articulo_init_desborda :
  Py.gt (Py.Entero 1) Py.cero = true /\
  Py.Articulo.init (Py.Entero 1) (Py.Entero (10 ^ 309)) "x"
  = Py.Raise Py.OverflowError.
Proof. split; vm_compute; reflexivity. Qed.

(** C9, amended. Building an item never divides by zero, whatever the
    weight and the value: the constructor never raises
    [ZeroDivisionError]. When the weight is 0 or less (or is not above 0
    for any other reason) construction succeeds and the ratio is 0. When
    the weight is above 0 the ratio is what [valor / peso] returns, and
    construction fails only if that division fails, which it does only by
    [OverflowError]. It does not fail when weight and value are both
    [float]. *)
Theorem Articulo_init_sin_division_por_cero p v n :
  Py.Articulo.init p v n <> Py.Raise Py.ZeroDivisionError /\
  (Py.le p Py.cero = true -> Py.gt p Py.cero = false) /\
  (Py.gt p Py.cero = false ->
     Py.Articulo.init p v n = Py.Ok (Py.Articulo.Build p v n Py.cero)) /\
  (Py.gt p Py.cero = true ->
     (exists q, Py.truediv v p = Py.Ok q /\
        Py.Articulo.init p v n = Py.Ok (Py.Articulo.Build p v n q)) \/
     (Py.truediv v p = Py.Raise Py.OverflowError /\
      Py.Articulo.init p v n = Py.Raise Py.OverflowError)) /\
  (forall x y, p = Py.Flotante x -> v = Py.Flotante y ->
     exists q, Py.Articulo.init p v n = Py.Ok (Py.Articulo.Build p v n q)).
Proof.
  assert (Hdiv : Py.gt p Py.cero = true ->
                 Py.truediv v p <> Py.Raise Py.ZeroDivisionError).
  { intros Hp Hz. apply Py_truediv_cero in Hz.
    rewrite (Py_gt_cero_no_es_cero p Hp) in Hz. discriminate. }
  unfold Py.Articulo.init.
  split; [|split; [apply Py_le_no_gt|split; [|split]]].
  - destruct (Py.gt p Py.cero) eqn:Hp; [|discriminate].
    specialize (Hdiv eq_refl).
    destruct (Py.truediv v p) as [q|[|]]; simpl; congruence.
  - intros ->. reflexivity.
  - intros Hp. rewrite Hp. specialize (Hdiv Hp).
    destruct (Py.truediv v p) as [q|[|]]; simpl.
    + left. eauto.
    + congruence.
    + right. split; reflexivity.
  - intros x y -> ->.
    destruct (Py.gt (Py.Flotante x) Py.cero) eqn:Hp; [|eexists; reflexivity].
    pose proof (Py_gt_cero_no_es_cero _ Hp) as Hz.
    unfold Py.truediv. cbn [Py.a_flotante Py.bind]. rewrite Hz.
    eexists. reflexivity.
Qed.

Lemma Articulo_init_sin_division_por_cero_witness :
  Py.Articulo.init (Py.Entero 0) (Py.Entero 60) "cero"
  = Py.Ok (Py.Articulo.Build (Py.Entero 0) (Py.Entero 60) "cero" Py.cero) /\
  ((exists q, Py.truediv (Py.Entero 60) (Py.Entero 10) = Py.Ok q /\
      Py.Articulo.init (Py.Entero 10) (Py.Entero 60) "diez"
      = Py.Ok (Py.Articulo.Build (Py.Entero 10) (Py.Entero 60) "diez" q)) \/
   (Py.truediv (Py.Entero 60) (Py.Entero 10) = Py.Raise Py.OverflowError /\
    Py.Articulo.init (Py.Entero 10) (Py.Entero 60) "diez"
    = Py.Raise Py.OverflowError)) /\
  (exists q,
     Py.Articulo.init Py.uno_punto_cero Py.cero_punto_cero "uno"
     = Py.Ok (Py.Articulo.Build Py.uno_punto_cero Py.cero_punto_cero "uno" q)).
Proof.
  split; [|split].
  - apply (proj1 (proj2 (proj2
      (Articulo_init_sin_division_por_cero (Py.Entero 0) (Py.Entero 60) "cero")))).
    reflexivity.
  - apply (proj1 (proj2 (proj2 (proj2
      (Articulo_init_sin_division_por_cero (Py.Entero 10) (Py.Entero 60) "diez"))))).
    reflexivity.
  - apply (proj2 (proj2 (proj2 (proj2
      (Articulo_init_sin_division_por_cero Py.uno_punto_cero
         Py.cero_punto_cero "uno")))) PrimFloat.one PrimFloat.zero);
      reflexivity.
Defined.




(** ** Inputs that are not validated *)

(** C8, as stated, fails: the denominations are not validated either, and
    with a negative denomination a negative amount is recorded with a
    count of zero. [dar_cambio_voraz(-5, [-10])] is [{-10: 0}], not the
    empty mapping. *)
Lemma dar_cambio_voraz_negativo_no_vacio :
  -5 < 0 /\
  dar_cambio_voraz (-5) [-10] = Ok [(-10, 0)] /\
  dar_cambio_voraz (-5) [-10] <> Ok [].
Proof.
  split; [lia|]. split; [reflexivity|]. cbv. discriminate.
Qed.

(** C8, amended. Neither function validates its arguments. For every
    negative amount and every list of denominations none of which is
    negative (the empty list included), [dar_cambio_voraz] raises nothing
    and returns the empty mapping; for the empty list of denominations it
    does so for every amount. For every list of items and every negative
    capacity, [mochila_fraccionaria_voraz] raises nothing and returns the
    empty selection with total value 0. *)
Theorem negativos_sin_validar cantidad monedas articulos capacidad :
  cantidad < 0 -> Forall (fun m => 0 <= m) monedas -> (capacidad < 0)%Q ->
  dar_cambio_voraz cantidad monedas = Ok [] /\
  (forall c, dar_cambio_voraz c [] = Ok []) /\
  mochila_fraccionaria_voraz articulos capacidad = Ok ([], 0%Q).
Proof.
  intros Hc Hm Hcap. split; [|split].
  - unfold dar_cambio_voraz. apply cambio_bucle_negativo; [assumption|].
    eapply Permutation_Forall; [|exact Hm]. symmetry. apply py_sorted_perm.
  - reflexivity.
  - unfold mochila_fraccionaria_voraz.
    destruct (py_sorted mayor_ratio articulos) as [|a l]; [reflexivity|].
    simpl. assert (H : Qle_bool capacidad 0 = true).
    { apply Qle_bool_iff. now apply Qlt_le_weak. }
    now rewrite H.
Qed.

Lemma negativos_sin_validar_witness :
  dar_cambio_voraz (-67) [25; 10; 5; 1] = Ok [] /\
  (forall c, dar_cambio_voraz c [] = Ok []) /\
  mochila_fraccionaria_voraz
    [Articulo.Build 10 60 "a" 6; Articulo.Build 20 100 "b" 5] (-(1 # 2))
  = Ok ([], 0%Q).
Proof.
  apply (negativos_sin_validar (-67) [25; 10; 5; 1]).
  - lia.
  - repeat constructor; lia.
  - reflexivity.
Defined.

(** ** Determinism *)

(** C10. Each of the three functions is determined by its input. The
    functions read nothing but their arguments, and the one step that
    could depend on more than the values, the order [sorted] gives to
    entries with equal keys, is fixed by the contract of [sorted]: the
    list the model sorts with meets the contract, and whatever list meets
    it (ordered by the key, entries with equal keys in their input
    order), the loop run on it returns what the function returns. So two
    invocations on the same input return the same result, in the same
    order. *)
Theorem algoritmos_deterministas
    (cantidad : Z) (monedas : list Z)
    (articulos : list Articulo.t) (capacidad : Q)
    (actividades : list Actividad.t) :
  (orden_estable mayor_a_menor monedas (py_sorted mayor_a_menor monedas) /\
   forall ord ord',
     orden_estable mayor_a_menor monedas ord ->
     orden_estable mayor_a_menor monedas ord' ->
     cambio_bucle ord [] cantidad = cambio_bucle ord' [] cantidad /\
     cambio_bucle ord [] cantidad = dar_cambio_voraz cantidad monedas) /\
  (orden_estable mayor_ratio articulos (py_sorted mayor_ratio articulos) /\
   forall ord ord',
     orden_estable mayor_ratio articulos ord ->
     orden_estable mayor_ratio articulos ord' ->
     mochila_bucle ord [] capacidad 0 = mochila_bucle ord' [] capacidad 0 /\
     mochila_bucle ord [] capacidad 0
     = mochila_fraccionaria_voraz articulos capacidad) /\
  (orden_estable menor_fin actividades (py_sorted menor_fin actividades) /\
   forall ord ord',
     orden_estable menor_fin actividades ord ->
     orden_estable menor_fin actividades ord' ->
     seleccion_bucle ord [] (-1) = seleccion_bucle ord' [] (-1) /\
     seleccion_bucle ord [] (-1) = seleccion_actividades_voraz actividades).
Proof.
  split; [|split].
  - split.
    { apply py_sorted_orden_estable;
        [apply mayor_a_menor_total|apply mayor_a_menor_trans]. }
    intros ord ord' H H'.
    apply (orden_estable_unico _ mayor_a_menor_total mayor_a_menor_trans) in H, H'.
    subst. split; reflexivity.
  - split.
    { apply py_sorted_orden_estable;
        [apply mayor_ratio_total|apply mayor_ratio_trans]. }
    intros ord ord' H H'.
    apply (orden_estable_unico _ mayor_ratio_total mayor_ratio_trans) in H, H'.
    subst. split; reflexivity.
  - split.
    { apply py_sorted_orden_estable;
        [apply menor_fin_total|apply menor_fin_trans]. }
    intros ord ord' H H'.
    apply (orden_estable_unico _ menor_fin_total menor_fin_trans) in H, H'.
    subst. split; [reflexivity|].
    rewrite seleccion_actividades_voraz_elegidas.
    apply seleccion_bucle_elegidas.
Qed.

Lemma algoritmos_deterministas_witness :
  let B := Actividad.Build 3 5 "B" 2 in
  let A := Actividad.Build 1 5 "A" 4 in
  let C := Actividad.Build 5 6 "C" 1 in
  seleccion_bucle [B; A; C] [] (-1) = seleccion_actividades_voraz [B; A; C] /\
  seleccion_actividades_voraz [B; A; C] = [B; C] /\
  cambio_bucle [25; 10; 5; 5; 1] [] 67 = dar_cambio_voraz 67 [5; 1; 25; 5; 10].
Proof.
  intros B A C.
  destruct (algoritmos_deterministas 67 [5; 1; 25; 5; 10] [] 0 [B; A; C])
    as ((Hm & Hcambio) & _ & (Hs & Hsel)).
  split; [|split].
  - apply (Hsel [B; A; C] [B; A; C]); exact Hs.
  - reflexivity.
  - apply (Hcambio [25; 10; 5; 5; 1] [25; 10; 5; 5; 1]); exact Hm.
Defined.

(* ================================================================== *)
(** * Part III: further properties of the code                         *)
(* ================================================================== *)

(** ** Change making: errors, remainders and the report *)

Lemma cambio_bucle_sin_cero ms : forall d r,
  ~ In 0 ms -> exists d', cambio_bucle ms d r = Ok d'.
Proof.
  induction ms as [|m ms IH]; intros d r Hn; simpl; [eauto|].
  assert (Hm : m <> 0) by (intro; apply Hn; now left).
  assert (Hn' : ~ In 0 ms) by (intro; apply Hn; now right).
  destruct (r >=? m); [|now apply IH].
  unfold py_floordiv, py_mod. destruct (Z.eqb_spec m 0); [contradiction|].
  simpl. now apply IH.
Qed.

Lemma cambio_bucle_cero ms : forall d r,
  StronglySorted (fun a b => mayor_a_menor a b = true) ms ->
  In 0 ms -> 0 <= r -> cambio_bucle ms d r = Raise ZeroDivisionError.
Proof.
  induction ms as [|m ms IH]; intros d r Hs Hin Hr; [contradiction|].
  inversion Hs as [|? ? Hs' Hm]; subst. simpl.
  rewrite Z.geb_leb.
  destruct (Z.eqb_spec m 0) as [->|Hne].
  - destruct (Z.leb_spec 0 r); [reflexivity|lia].
  - assert (Hin' : In 0 ms) by (destruct Hin; [congruence|assumption]).
    assert (0 < m).
    { rewrite Forall_forall in Hm. specialize (Hm 0 Hin').
      unfold mayor_a_menor in Hm. apply Z.leb_le in Hm. lia. }
    destruct (Z.leb_spec m r); [|now apply IH].
    unfold py_floordiv, py_mod. destruct (Z.eqb_spec m 0); [lia|]. simpl.
    apply IH; auto. pose proof (Z.mod_pos_bound r m). lia.
Qed.

Lemma cambio_bucle_negativo_ok ms : forall d r,
  StronglySorted (fun a b => mayor_a_menor a b = true) ms ->
  r < 0 -> exists d', cambio_bucle ms d r = Ok d'.
Proof.
  induction ms as [|m ms IH]; intros d r Hs Hr; [simpl; eauto|].
  inversion Hs as [|? ? Hs' Hm]; subst.
  destruct (Z.leb_spec 0 m) as [Hpos|Hneg].
  - simpl. rewrite Z.geb_leb. destruct (Z.leb_spec m r); [lia|]. now apply IH.
  - apply cambio_bucle_sin_cero. intros [H0|H0]; [lia|].
    rewrite Forall_forall in Hm. specialize (Hm 0 H0).
    unfold mayor_a_menor in Hm. apply Z.leb_le in Hm. lia.
Qed.

(** X1. [dar_cambio_voraz] raises exactly when the amount is not negative
    and 0 is among the denominations, and what it raises then is
    [ZeroDivisionError]; in every other case it returns a mapping. *)
Theorem dar_cambio_voraz_errores cantidad monedas :
  (0 <= cantidad /\ In 0 monedas ->
     dar_cambio_voraz cantidad monedas = Raise ZeroDivisionError) /\
  (~ (0 <= cantidad /\ In 0 monedas) ->
     exists resultado, dar_cambio_voraz cantidad monedas = Ok resultado).
Proof.
  pose proof (py_sorted_ordenada mayor_a_menor mayor_a_menor_total
                mayor_a_menor_trans monedas) as Hs.
  pose proof (py_sorted_perm mayor_a_menor monedas) as Hp.
  unfold dar_cambio_voraz. split.
  - intros [Hc H0]. apply cambio_bucle_cero; [assumption| |assumption].
    apply (Permutation_in _ (Permutation_sym Hp) H0).
  - intro Hn. destruct (Z.leb_spec 0 cantidad) as [Hc|Hc].
    + apply cambio_bucle_sin_cero. intro H0. apply Hn. split; [assumption|].
      apply (Permutation_in _ Hp H0).
    + now apply cambio_bucle_negativo_ok.
Qed.

Lemma dar_cambio_voraz_errores_witness :
  dar_cambio_voraz 5 [10; 0; -3] = Raise ZeroDivisionError /\
  exists resultado, dar_cambio_voraz (-5) [10; 0; -3] = Ok resultado.
Proof.
  split.
  - apply (proj1 (dar_cambio_voraz_errores 5 [10; 0; -3])).
    split; [lia|simpl; auto].
  - apply (proj2 (dar_cambio_voraz_errores (-5) [10; 0; -3])).
    intros [H _]. lia.
Defined.

Lemma restante_final_menor ms : forall r m,
  Forall (fun m => 0 < m) ms -> 0 <= r -> In m ms -> restante_final ms r < m.
Proof.
  induction ms as [|x ms IH]; intros r m Hpos Hr Hin; [contradiction|].
  inversion Hpos as [|? ? Hx Hpos']; subst. simpl.
  pose proof (Z.mod_pos_bound r x Hx) as Hb.
  rewrite Z.geb_leb. destruct Hin as [->|Hin].
  - destruct (Z.leb_spec m r).
    + pose proof (restante_final_cota ms (r mod m) Hpos'). lia.
    + pose proof (restante_final_cota ms r Hpos'). lia.
  - destruct (Z.leb_spec x r); apply IH; auto; lia.
Qed.

Lemma entradas_decrecientes ms : forall r,
  Forall (fun m => 0 < m) ms -> 0 <= r ->
  StronglySorted (fun kv kv' => fst kv' < fst kv) (entradas ms r).
Proof.
  induction ms as [|m ms IH]; intros r Hpos Hr; simpl; [constructor|].
  inversion Hpos as [|? ? Hm Hpos']; subst.
  pose proof (Z.mod_pos_bound r m Hm) as Hb.
  rewrite Z.geb_leb. destruct (Z.leb_spec m r); [|now apply IH].
  constructor; [apply IH; auto; lia|].
  destruct (entradas_claves ms (r mod m) Hpos' ltac:(lia)) as [Hk _].
  eapply Forall_impl; [|exact Hk]. simpl. intros kv [_ ?]. lia.
Qed.

(** X2. For positive denominations, with or without a coin of value 1,
    and an amount that is not negative, [dar_cambio_voraz] returns a
    mapping whose denominations come from the list, in strictly decreasing
    order, each with a count of at least 1; what it pays falls short of
    the amount by less than every denomination of the list, and never
    exceeds it. *)
Theorem dar_cambio_voraz_resto cantidad monedas :
  0 <= cantidad -> Forall (fun m => 0 < m) monedas ->
  exists resultado,
    dar_cambio_voraz cantidad monedas = Ok resultado /\
    StronglySorted (fun kv kv' => fst kv' < fst kv) resultado /\
    Forall (fun kv => In (fst kv) monedas /\ 1 <= snd kv) resultado /\
    0 <= cantidad - suma_ponderada resultado /\
    forall m, In m monedas -> cantidad - suma_ponderada resultado < m.
Proof.
  intros Hc Hpos.
  pose proof (py_sorted_perm mayor_a_menor monedas) as Hp.
  assert (Hpos' : Forall (fun m => 0 < m) (py_sorted mayor_a_menor monedas)).
  { eapply Permutation_Forall; [symmetry; exact Hp|exact Hpos]. }
  set (ms := py_sorted mayor_a_menor monedas) in *.
  exists (entradas ms cantidad).
  split; [now apply dar_cambio_voraz_entradas|].
  split; [now apply entradas_decrecientes|].
  pose proof (entradas_suma ms cantidad Hpos') as Hs.
  pose proof (restante_final_cota ms cantidad Hpos' Hc) as Hb.
  split; [|split; [lia|]].
  - destruct (entradas_claves ms cantidad Hpos' Hc) as [Hk _].
    pose proof (entradas_positivas ms cantidad Hpos') as Hv.
    rewrite Forall_forall in *. intros kv Hin. split.
    + apply (Permutation_in _ Hp). now apply Hk.
    + now apply Hv.
  - intros m Hm.
    pose proof (restante_final_menor ms cantidad m Hpos' Hc
                  (Permutation_in _ (Permutation_sym Hp) Hm)). lia.
Qed.

Lemma dar_cambio_voraz_resto_witness :
  exists resultado,
    dar_cambio_voraz 11 [3; 7] = Ok resultado /\
    StronglySorted (fun kv kv' => fst kv' < fst kv) resultado /\
    Forall (fun kv => In (fst kv) [3; 7] /\ 1 <= snd kv) resultado /\
    0 <= 11 - suma_ponderada resultado /\
    forall m, In m [3; 7] -> 11 - suma_ponderada resultado < m.
Proof.
  apply (dar_cambio_voraz_resto 11 [3; 7]).
  - lia.
  - repeat constructor.
Defined.

(** Sorting a list that is already in order returns it. *)
Lemma py_sorted_ya_ordenada {A : Type} (leb : A -> A -> bool) l :
  (forall x y, leb x y = true \/ leb y x = true) ->
  (forall x y z, leb x y = true -> leb y z = true -> leb x z = true) ->
  StronglySorted (fun a b => leb a b = true) l -> py_sorted leb l = l.
Proof.
  intros Htot Htrans Hs. symmetry.
  apply (orden_estable_unico leb Htot Htrans). now split.
Qed.









Lemma filter_length_perm {A : Type} (f : A -> bool) l l' :
  Permutation l l' ->
  List.length (filter f l) = List.length (filter f l').
Proof.
  induction 1 as [|x l l' _ IH|x y l|l l' l'' _ IH1 _ IH2]; simpl.
  - reflexivity.
  - destruct (f x); simpl; congruence.
  - destruct (f x), (f y); reflexivity.
  - congruence.
Qed.

Lemma filter_iguales (f : Z -> bool) x l :
  (forall y, f y = true -> y = x) ->
  filter f l = repeat x (List.length (filter f l)).
Proof.
  intro Hf. induction l as [|y l IH]; simpl; [reflexivity|].
  destruct (f y) eqn:E; [|exact IH].
  simpl. rewrite (Hf y E). now f_equal.
Qed.

(** Integers with the same key are the same integer, so sorting forgets
    the order of the input altogether. *)
Lemma py_sorted_monedas_perm l l' :
  Permutation l l' ->
  py_sorted mayor_a_menor l = py_sorted mayor_a_menor l'.
Proof.
  intro Hp.
  apply (ordenada_unica mayor_a_menor mayor_a_menor_total);
    try apply (py_sorted_ordenada mayor_a_menor mayor_a_menor_total
                 mayor_a_menor_trans).
  intro x.
  assert (Hf : forall y, empata mayor_a_menor x y = true -> y = x).
  { intro y. unfold empata, mayor_a_menor.
    rewrite andb_true_iff, !Z.leb_le. lia. }
  rewrite (filter_iguales _ x _ Hf), (filter_iguales _ x (py_sorted _ l') Hf).
  f_equal. apply filter_length_perm.
  rewrite !py_sorted_perm. exact Hp.
Qed.

(** X19. The order in which the denominations are given does not matter:
    for the same amount, two lists with the same denominations, each as
    often in one as in the other, give the same result, an exception
    included. *)
Theorem dar_cambio_voraz_orden cantidad monedas monedas' :
  Permutation monedas monedas' ->
  dar_cambio_voraz cantidad monedas = dar_cambio_voraz cantidad monedas'.
Proof.
  intro Hp. unfold dar_cambio_voraz.
  now rewrite (py_sorted_monedas_perm _ _ Hp).
Qed.

Lemma dar_cambio_voraz_orden_witness :
  dar_cambio_voraz 67 [1; 25; 5; 10] = dar_cambio_voraz 67 [5; 1; 25; 10].
Proof.
  apply (dar_cambio_voraz_orden 67 [1; 25; 5; 10] [5; 1; 25; 10]).
  apply perm_trans with [1; 5; 25; 10].
  - apply perm_skip, perm_swap.
  - apply perm_swap.
Defined.

(** ** Activity selection: what is selected, and the overlap check *)

Lemma seleccion_optima_desde_menos_uno_witness :
  let A := Actividad.Build 1 4 "A" 3 in
  let D := Actividad.Build 5 7 "D" 2 in
  let B := Actividad.Build 3 5 "B" 2 in
  (List.length [A; D]
   <= List.length (seleccion_actividades_voraz [A; D; B]))%nat.
Proof.
  intros A D B.
  apply (seleccion_optima_desde_menos_uno [A; D; B] [A; D]).
  - repeat constructor.
  - repeat constructor; simpl; lia.
  - exists [B]. reflexivity.
  - reflexivity.
Defined.

Lemma seleccion_cardinal_maximo actividades s :
  Forall (fun a => inicio a < fin a) actividades ->
  subconjunto s actividades -> verificar_sin_traslape s = true ->
  Forall (fun a => -1 <= inicio a) s ->
  (List.length s <= List.length (seleccion_actividades_voraz actividades))%nat.
Proof.
  intros Hv Hsub Hs Hneg.
  rewrite seleccion_actividades_voraz_elegidas.
  pose proof (py_sorted_perm menor_fin actividades) as Hp.
  apply elegidas_maximo; try assumption.
  - eapply StronglySorted_impl_In;
      [|apply (py_sorted_ordenada menor_fin menor_fin_total menor_fin_trans)].
    intros a b _ _. unfold menor_fin. apply Z.leb_le.
  - eapply Permutation_Forall; [symmetry; exact Hp|exact Hv].
  - eapply subconjunto_perm; [exact Hsub|]. now symmetry.
Qed.

Lemma seleccion_subconjunto actividades :
  subconjunto (seleccion_actividades_voraz actividades) actividades.
Proof.
  rewrite seleccion_actividades_voraz_elegidas.
  eapply subconjunto_perm; [apply elegidas_subconjunto|apply py_sorted_perm].
Qed.

Lemma subconjunto_cons s a l :
  subconjunto s l -> In a l -> ~ In a s -> subconjunto (a :: s) l.
Proof.
  intros [r Hp] Ha Hn.
  apply (Permutation_in _ (Permutation_sym Hp)) in Ha.
  apply in_app_or in Ha. destruct Ha as [Ha|Ha]; [contradiction|].
  apply in_split in Ha. destruct Ha as (r1 & r2 & ->).
  exists (r1 ++ r2). rewrite <- Hp. simpl.
  rewrite !app_assoc. apply Permutation_middle.
Qed.

Lemma traslapa_con_refl a : inicio a < fin a -> traslapa_con a a = true.
Proof.
  intro H. unfold traslapa_con.
  destruct (Z.leb_spec (fin a) (inicio a)); [lia|reflexivity].
Qed.

(** X7. Nothing can be added. When no activity starts before -1, every
    activity of the input overlaps an activity of the selection (itself,
    if it was selected). *)
Theorem seleccion_maximal actividades a :
  Forall Actividad.construida actividades ->
  Forall (fun a => -1 <= inicio a) actividades ->
  In a actividades ->
  exists b, In b (seleccion_actividades_voraz actividades) /\
            traslapa_con a b = true.
Proof.
  intros Hc Hneg Ha.
  assert (Hv : Forall (fun a => inicio a < fin a) actividades).
  { eapply Forall_impl; [|exact Hc]. intros x Hx. now apply construida_valida. }
  set (r := seleccion_actividades_voraz actividades).
  destruct (existsb (traslapa_con a) r) eqn:E.
  { apply existsb_exists in E. exact E. }
  exfalso.
  assert (Hno : forall b, In b r -> traslapa_con a b = false).
  { intros b Hb. destruct (traslapa_con a b) eqn:Eb; [|reflexivity].
    assert (existsb (traslapa_con a) r = true)
      by (apply existsb_exists; eauto).
    congruence. }
  rewrite Forall_forall in Hv, Hneg.
  assert (Hnr : ~ In a r).
  { intro Hin. specialize (Hno a Hin).
    rewrite traslapa_con_refl in Hno by auto. discriminate. }
  pose proof (seleccion_subconjunto actividades) as Hsub. fold r in Hsub.
  assert (Hlen : (List.length (a :: r) <= List.length r)%nat).
  { apply seleccion_cardinal_maximo.
    - now apply Forall_forall.
    - now apply subconjunto_cons.
    - simpl. apply andb_true_iff. split.
      + apply forallb_forall. intros b Hb. now rewrite Hno.
      + apply verificar_sin_traslape_cadena.
        now apply seleccion_actividades_voraz_cadena.
    - constructor; [auto|]. apply Forall_forall. intros b Hb.
      apply Hneg. eapply subconjunto_In; eassumption. }
  simpl in Hlen. lia.
Qed.

Lemma seleccion_maximal_witness :
  let A := Actividad.Build 1 4 "A" 3 in
  let D := Actividad.Build 5 7 "D" 2 in
  let B := Actividad.Build 3 5 "B" 2 in
  exists b, In b (seleccion_actividades_voraz [A; D; B]) /\
            traslapa_con B b = true.
Proof.
  intros A D B.
  apply (seleccion_maximal [A; D; B] B).
  - repeat constructor.
  - repeat constructor; simpl; lia.
  - simpl. auto.
Defined.

Lemma elegidas_desde l : forall t,
  Forall (fun a => inicio a < fin a) l ->
  Forall (fun a => t <= inicio a) (elegidas l t).
Proof.
  induction l as [|a l IH]; intros t Hv; simpl; [constructor|].
  inversion Hv as [|? ? Ha Hv']; subst.
  rewrite Z.geb_leb. destruct (Z.leb_spec t (inicio a)); [|now apply IH].
  constructor; [assumption|].
  eapply Forall_impl; [|apply (IH (fin a) Hv')]. simpl. intros. lia.
Qed.

Lemma elegidas_nada l : forall t,
  Forall (fun a => inicio a < t) l -> elegidas l t = [].
Proof.
  induction l as [|a l IH]; intros t Hl; [reflexivity|].
  inversion Hl as [|? ? Ha Hl']; subst. simpl.
  rewrite Z.geb_leb. destruct (Z.leb_spec t (inicio a)); [lia|now apply IH].
Qed.

(** X8. The reach of the sentinel. Every selected activity starts at -1
    or later; and when every activity of the input starts before -1, the
    selection is empty, whatever the input holds. *)
Theorem seleccion_desde_menos_uno actividades :
  Forall Actividad.construida actividades ->
  Forall (fun a => -1 <= inicio a) (seleccion_actividades_voraz actividades) /\
  (Forall (fun a => inicio a < -1) actividades ->
   seleccion_actividades_voraz actividades = []).
Proof.
  intro Hc. rewrite seleccion_actividades_voraz_elegidas.
  pose proof (py_sorted_perm menor_fin actividades) as Hp. split.
  - apply elegidas_desde.
    eapply Permutation_Forall; [symmetry; exact Hp|].
    eapply Forall_impl; [|exact Hc]. intros a Ha. now apply construida_valida.
  - intro Hn. apply elegidas_nada.
    eapply Permutation_Forall; [symmetry; exact Hp|exact Hn].
Qed.

Lemma seleccion_desde_menos_uno_witness :
  let P := Actividad.Build (-9) (-7) "P" 2 in
  let R := Actividad.Build (-6) (-2) "R" 4 in
  Forall (fun a => -1 <= inicio a) (seleccion_actividades_voraz [P; R]) /\
  seleccion_actividades_voraz [P; R] = [].
Proof.
  intros P R.
  destruct (seleccion_desde_menos_uno [P; R]) as [H1 H2].
  - repeat constructor.
  - split; [exact H1|]. apply H2. repeat constructor.
Defined.

Lemma elegidas_cadena r : forall t,
  StronglySorted antes r -> Forall (fun a => t <= inicio a) r ->
  elegidas r t = r.
Proof.
  induction r as [|a r IH]; intros t Hs Ht; [reflexivity|].
  inversion Hs as [|? ? Hs' Ha]; subst.
  inversion Ht as [|? ? Hta Ht']; subst. simpl.
  rewrite Z.geb_leb. destruct (Z.leb_spec t (inicio a)); [|lia].
  f_equal. apply IH; assumption.
Qed.

(** X9. Selecting again changes nothing: the selection of a selection is
    that selection. *)
Theorem seleccion_idempotente actividades :
  Forall Actividad.construida actividades ->
  seleccion_actividades_voraz (seleccion_actividades_voraz actividades)
  = seleccion_actividades_voraz actividades.
Proof.
  intro Hc.
  destruct (seleccion_actividades_voraz_cadena actividades Hc) as [Hs Hv].
  assert (Hd : Forall (fun a => -1 <= inicio a)
                 (seleccion_actividades_voraz actividades)).
  { rewrite seleccion_actividades_voraz_elegidas. apply elegidas_desde.
    eapply Permutation_Forall; [symmetry; apply py_sorted_perm|].
    eapply Forall_impl; [|exact Hc]. intros a Ha. now apply construida_valida. }
  set (r := seleccion_actividades_voraz actividades) in *. clearbody r.
  rewrite seleccion_actividades_voraz_elegidas.
  rewrite (py_sorted_ya_ordenada menor_fin r menor_fin_total menor_fin_trans).
  - now apply elegidas_cadena.
  - clear Hd. induction Hs as [|a l Hs IH Ha]; [constructor|].
    inversion Hv as [|? ? Hva Hvl]; subst.
    constructor; [now apply IH|].
    rewrite Forall_forall in *. intros b Hb.
    specialize (Ha b Hb). specialize (Hvl b Hb).
    unfold antes in Ha. unfold menor_fin. apply Z.leb_le. lia.
Qed.

Lemma seleccion_idempotente_witness :
  let A := Actividad.Build 1 4 "A" 3 in
  let D := Actividad.Build 5 7 "D" 2 in
  let B := Actividad.Build 3 5 "B" 2 in
  seleccion_actividades_voraz (seleccion_actividades_voraz [B; D; A])
  = seleccion_actividades_voraz [B; D; A].
Proof.
  intros A D B.
  apply (seleccion_idempotente [B; D; A]). repeat constructor.
Defined.

(** X10. The activity that ends first is always taken. For an input that
    is not empty and in which no activity starts before -1, the selection
    is not empty and begins with an activity of the input whose end time
    is the least of all. *)
Theorem seleccion_primera actividades :
  actividades <> [] ->
  Forall Actividad.construida actividades ->
  Forall (fun a => -1 <= inicio a) actividades ->
  exists a resto,
    seleccion_actividades_voraz actividades = a :: resto /\
    In a actividades /\
    forall b, In b actividades -> fin a <= fin b.
Proof.
  intros Hne Hc Hneg.
  rewrite seleccion_actividades_voraz_elegidas.
  pose proof (py_sorted_perm menor_fin actividades) as Hp.
  pose proof (py_sorted_ordenada menor_fin menor_fin_total menor_fin_trans
                actividades) as Hs.
  destruct (py_sorted menor_fin actividades) as [|a l] eqn:E.
  { apply Permutation_nil in Hp. contradiction. }
  assert (Ha : In a actividades) by (apply (Permutation_in _ Hp); now left).
  rewrite Forall_forall in Hneg. pose proof (Hneg a Ha) as Hia.
  exists a, (elegidas l (fin a)). split; [|split; [exact Ha|]].
  - simpl. rewrite Z.geb_leb. destruct (Z.leb_spec (-1) (inicio a)); [reflexivity|lia].
  - intros b Hb. apply (Permutation_in _ (Permutation_sym Hp)) in Hb.
    inversion Hs as [|? ? _ Hal]; subst.
    destruct Hb as [<-|Hb]; [lia|].
    rewrite Forall_forall in Hal. specialize (Hal b Hb).
    unfold menor_fin in Hal. now apply Z.leb_le in Hal.
Qed.

Lemma seleccion_primera_witness :
  let A := Actividad.Build 1 4 "A" 3 in
  let D := Actividad.Build 5 7 "D" 2 in
  let C := Actividad.Build 0 6 "C" 6 in
  exists a resto,
    seleccion_actividades_voraz [C; D; A] = a :: resto /\
    In a [C; D; A] /\
    forall b, In b [C; D; A] -> fin a <= fin b.
Proof.
  intros A D C.
  apply (seleccion_primera [C; D; A]).
  - discriminate.
  - repeat constructor.
  - repeat constructor; simpl; lia.
Defined.

Lemma forallb_perm {A : Type} (f : A -> bool) l l' :
  Permutation l l' -> forallb f l = forallb f l'.
Proof.
  induction 1 as [|x l l' _ IH|x y l|l l' l'' _ IH1 _ IH2]; simpl.
  - reflexivity.
  - now rewrite IH.
  - destruct (f x), (f y); reflexivity.
  - congruence.
Qed.

Lemma verificar_sin_traslape_perm l l' :
  Permutation l l' -> verificar_sin_traslape l = verificar_sin_traslape l'.
Proof.
  induction 1 as [|x l l' Hp IH|x y l|l l' l'' _ IH1 _ IH2]; simpl.
  - reflexivity.
  - now rewrite IH, (forallb_perm _ _ _ Hp).
  - rewrite (traslapa_con_sym y x).
    destruct (traslapa_con x y), (forallb (fun b => negb (traslapa_con x b)) l),
      (forallb (fun b => negb (traslapa_con y b)) l); reflexivity.
  - congruence.
Qed.

Lemma verificar_sin_traslape_pares l :
  verificar_sin_traslape l = true <->
  forall i j a b, (i < j)%nat ->
    nth_error l i = Some a -> nth_error l j = Some b ->
    traslapa_con a b = false.
Proof.
  induction l as [|x l IH]; simpl.
  - split; [|reflexivity]. intros _ i j a b _ Hi. destruct i; discriminate.
  - rewrite andb_true_iff, IH, forallb_forall. split.
    + intros [Hx Hl] i j a b Hij Hi Hj.
      destruct j as [|j]; [lia|]. destruct i as [|i]; simpl in *.
      * injection Hi as <-. apply nth_error_In in Hj.
        specialize (Hx b Hj). now apply negb_true_iff.
      * apply (Hl i j); auto; lia.
    + intro H. split.
      * intros b Hb. apply In_nth_error in Hb. destruct Hb as [j Hj].
        apply negb_true_iff. apply (H 0%nat (S j)); auto; lia.
      * intros i j a b Hij Hi Hj. apply (H (S i) (S j)); auto; lia.
Qed.

(** X11. What [verificar_sin_traslape] decides. It returns [True] exactly
    when no two entries at different positions of the list overlap, and
    its answer does not depend on the order of the list. *)
Theorem verificar_sin_traslape_correcto l :
  (verificar_sin_traslape l = true <->
   forall i j a b, i <> j ->
     nth_error l i = Some a -> nth_error l j = Some b ->
     traslapa_con a b = false) /\
  (forall l', Permutation l l' ->
     verificar_sin_traslape l' = verificar_sin_traslape l).
Proof.
  split.
  - rewrite verificar_sin_traslape_pares. split.
    + intros H i j a b Hij Hi Hj.
      destruct (Nat.lt_total i j) as [Hlt|[Heq|Hgt]]; [eauto|contradiction|].
      rewrite traslapa_con_sym. eauto.
    + intros H i j a b Hij. apply H. lia.
  - intros l' Hp. symmetry. now apply verificar_sin_traslape_perm.
Qed.

Lemma verificar_sin_traslape_correcto_witness :
  let A := Actividad.Build 1 4 "A" 3 in
  let D := Actividad.Build 5 7 "D" 2 in
  verificar_sin_traslape [D; A] = verificar_sin_traslape [A; D].
Proof.
  intros A D.
  apply (proj2 (verificar_sin_traslape_correcto [A; D])).
  apply perm_swap.
Defined.

(** X12. [traslapa_con] on activities as the constructor builds them: two
    activities overlap exactly when some time lies in both, each taken
    from its start up to but not including its end; the answer is the same
    in both directions; and an activity overlaps itself. *)
Theorem traslapa_con_punto_comun a b :
  Actividad.construida a -> Actividad.construida b ->
  (traslapa_con a b = true <->
   exists t, (inicio a <= t < fin a) /\ (inicio b <= t < fin b)) /\
  traslapa_con a b = traslapa_con b a /\
  traslapa_con a a = true.
Proof.
  intros Ha Hb.
  apply construida_valida in Ha, Hb. destruct Ha as [Ha _], Hb as [Hb _].
  split; [|split; [apply traslapa_con_sym|now apply traslapa_con_refl]].
  unfold traslapa_con. rewrite negb_true_iff, orb_false_iff, !Z.leb_gt.
  split.
  - intros [H1 H2]. exists (Z.max (inicio a) (inicio b)). lia.
  - intros (t & H1 & H2). lia.
Qed.

Lemma traslapa_con_punto_comun_witness :
  let A := Actividad.Build 1 4 "A" 3 in
  let B := Actividad.Build 3 5 "B" 2 in
  (traslapa_con A B = true <->
   exists t, (inicio A <= t < fin A) /\ (inicio B <= t < fin B)) /\
  traslapa_con A B = traslapa_con B A /\
  traslapa_con A A = true.
Proof.
  intros A B. apply (traslapa_con_punto_comun A B); reflexivity.
Defined.

(** X20. The size of the selection does not depend on the order of the
    input: when no activity starts before -1, two lists with the same
    activities, each as often in one as in the other, give selections of
    the same length. *)
Theorem seleccion_orden_cardinal actividades actividades' :
  Forall Actividad.construida actividades ->
  Forall (fun a => -1 <= inicio a) actividades ->
  Permutation actividades actividades' ->
  List.length (seleccion_actividades_voraz actividades)
  = List.length (seleccion_actividades_voraz actividades').
Proof.
  intros Hc Hneg Hp.
  assert (Hc' : Forall Actividad.construida actividades')
    by (eapply Permutation_Forall; eassumption).
  assert (Hneg' : Forall (fun a => -1 <= inicio a) actividades')
    by (eapply Permutation_Forall; eassumption).
  assert (Hv : forall l, Forall Actividad.construida l ->
                 Forall (fun a => inicio a < fin a) l).
  { intros l Hl. eapply Forall_impl; [|exact Hl].
    intros a Ha. now apply construida_valida. }
  assert (Hle : forall l l',
            Forall Actividad.construida l -> Forall Actividad.construida l' ->
            Forall (fun a => -1 <= inicio a) l -> Permutation l l' ->
            (List.length (seleccion_actividades_voraz l)
             <= List.length (seleccion_actividades_voraz l'))%nat).
  { intros l l' Hl Hl' Hn Hll.
    apply seleccion_cardinal_maximo.
    - now apply Hv.
    - eapply subconjunto_perm; [apply seleccion_subconjunto|exact Hll].
    - apply verificar_sin_traslape_cadena.
      now apply seleccion_actividades_voraz_cadena.
    - rewrite Forall_forall in *. intros a Ha. apply Hn.
      eapply subconjunto_In; [apply seleccion_subconjunto|exact Ha]. }
  apply Nat.le_antisymm.
  - now apply Hle.
  - apply Hle; auto. now symmetry.
Qed.

Lemma seleccion_orden_cardinal_witness :
  let A := Actividad.Build 1 4 "A" 3 in
  let D := Actividad.Build 5 7 "D" 2 in
  let B := Actividad.Build 3 5 "B" 2 in
  List.length (seleccion_actividades_voraz [A; D; B])
  = List.length (seleccion_actividades_voraz [D; A; B]).
Proof.
  intros A D B.
  apply (seleccion_orden_cardinal [A; D; B] [D; A; B]).
  - repeat constructor.
  - repeat constructor; simpl; lia.
  - apply perm_swap.
Defined.

(** ** More on the knapsack *)

Lemma StronglySorted_map_inv {A B : Type} (f : A -> B) (R : B -> B -> Prop) l :
  StronglySorted R (map f l) ->
  StronglySorted (fun a b => R (f a) (f b)) l.
Proof.
  induction l as [|a l IH]; intro H; [constructor|].
  simpl in H. inversion H as [|? ? Hs Ha]; subst.
  constructor; [apply IH; exact Hs|].
  rewrite Forall_map in Ha. exact Ha.
Qed.



(** X14. What is taken are the first items in the order of the ratios.
    For items whose ratios are finite, whenever
    [mochila_fraccionaria_voraz] returns, the items of the selection
    followed by some rest are a permutation of the input along which the
    ratio never increases: ratios do not increase along the selection and
    no item left out has a higher ratio than an item taken. *)
Theorem mochila_toma_mejores articulos capacidad mochila total :
  Forall (fun a => Py.finito (Py.Articulo.ratio a) = true) articulos ->
  Py.mochila_fraccionaria_voraz articulos capacidad = Py.Ok (mochila, total) ->
  exists resto,
    Permutation (map fst mochila ++ resto) articulos /\
    StronglySorted
      (fun a b => Py.le (Py.Articulo.ratio b) (Py.Articulo.ratio a) = true)
      (map fst mochila ++ resto).
Proof.
  intros Hfin H. unfold Py.mochila_fraccionaria_voraz in H.
  destruct (Py_mochila_bucle_forma _ _ _ _ _ _ H)
    as (enteros & corte & resto & Hm & Hl & _).
  exists resto.
  assert (E : map fst mochila ++ resto = py_sorted Py.mayor_ratio articulos).
  { rewrite Hl, Hm. simpl. rewrite map_app, map_map. simpl.
    rewrite map_id, <- app_assoc. reflexivity. }
  rewrite E. split; [apply py_sorted_perm|].
  pose proof (py_sorted_ordenada mayor_ratio mayor_ratio_total
                mayor_ratio_trans (map racional articulos)) as Hs.
  rewrite <- (Py_sorted_racional articulos Hfin) in Hs.
  apply StronglySorted_map_inv in Hs.
  eapply StronglySorted_impl_In; [|exact Hs].
  intros a b Ha Hb Hab. cbv beta in Hab.
  assert (Hin : forall x, In x (py_sorted Py.mayor_ratio articulos) ->
                          Py.finito (Py.Articulo.ratio x) = true).
  { intros x Hx. rewrite Forall_forall in Hfin. apply Hfin.
    exact (Permutation_in x (py_sorted_perm Py.mayor_ratio articulos) Hx). }
  rewrite (Py_le_real _ _ (Hin b Hb) (Hin a Ha)). exact Hab.
Qed.

Lemma mochila_toma_mejores_witness :
  exists a1 a2 a3 mochila total,
    Py.Articulo.init (Py.Entero 10) (Py.Entero 60) "1" = Py.Ok a1 /\
    Py.Articulo.init (Py.Entero 20) (Py.Entero 100) "2" = Py.Ok a2 /\
    Py.Articulo.init (Py.Entero 30) (Py.Entero 120) "3" = Py.Ok a3 /\
    Py.mochila_fraccionaria_voraz [a3; a1; a2] (Py.Entero 25)
    = Py.Ok (mochila, total) /\
    exists resto,
      Permutation (map fst mochila ++ resto) [a3; a1; a2] /\
      StronglySorted
        (fun a b => Py.le (Py.Articulo.ratio b) (Py.Articulo.ratio a) = true)
        (map fst mochila ++ resto).
Proof.
  eexists _, _, _, _, _.
  split; [vm_compute; reflexivity|]. split; [vm_compute; reflexivity|].
  split; [vm_compute; reflexivity|].
  match goal with
  | |- ?corrida /\ _ =>
      assert (Hcorrida : corrida) by (vm_compute; reflexivity);
      split; [exact Hcorrida|
              refine (mochila_toma_mejores _ _ _ _ _ Hcorrida)]
  end.
  repeat constructor.
Defined.

(** X15. Without capacity nothing is taken. For any items and any
    capacity that is [<= 0] (negative, zero, or minus infinity),
    [mochila_fraccionaria_voraz] raises nothing and returns the empty
    selection and the total 0.0. *)
Theorem mochila_sin_capacidad articulos capacidad :
  Py.le capacidad Py.cero = true ->
  Py.mochila_fraccionaria_voraz articulos capacidad
  = Py.Ok ([], Py.cero_punto_cero).
Proof.
  intro H. unfold Py.mochila_fraccionaria_voraz.
  destruct (py_sorted Py.mayor_ratio articulos) as [|a l]; [reflexivity|].
  cbn [Py.mochila_bucle]. rewrite H. reflexivity.
Qed.

Lemma mochila_sin_capacidad_witness :
  Py.mochila_fraccionaria_voraz
    [Py.Articulo.Build (Py.Entero 5) (Py.Entero 5) "a" Py.uno_punto_cero;
     Py.Articulo.Build (Py.Entero 0) (Py.Entero 5) "b" Py.cero]
    (Py.Entero (-1))
  = Py.Ok ([], Py.cero_punto_cero).
Proof.
  apply (mochila_sin_capacidad _ (Py.Entero (-1))). reflexivity.
Defined.

(** X16. The order in which the items are visited. For items whose ratios
    are finite, the list [sorted] hands to the loop meets the contract of
    a stable sort by decreasing ratio (ratios never increase along it, and
    items of equal ratio are in the order of the input), and it is the
    only list that does: the loop run on any list meeting the contract
    returns what [mochila_fraccionaria_voraz] returns. *)
Theorem mochila_orden_de_visita articulos capacidad :
  Forall (fun a => Py.finito (Py.Articulo.ratio a) = true) articulos ->
  orden_estable Py.ratio_no_menor articulos
    (py_sorted Py.mayor_ratio articulos) /\
  forall ord,
    orden_estable Py.ratio_no_menor articulos ord ->
    ord = py_sorted Py.mayor_ratio articulos /\
    Py.mochila_bucle ord [] capacidad Py.cero_punto_cero
    = Py.mochila_fraccionaria_voraz articulos capacidad.
Proof.
  intro Hfin. rewrite (Py_sorted_ratio_no_menor articulos Hfin). split.
  - apply py_sorted_orden_estable;
      [exact Py_ratio_no_menor_total|exact Py_ratio_no_menor_trans].
  - intros ord Hord.
    apply (orden_estable_unico _ Py_ratio_no_menor_total
             Py_ratio_no_menor_trans) in Hord.
    subst ord. split; [reflexivity|].
    unfold Py.mochila_fraccionaria_voraz.
    rewrite (Py_sorted_ratio_no_menor articulos Hfin). reflexivity.
Qed.

Lemma mochila_orden_de_visita_witness :
  let a := Py.Articulo.Build (Py.Entero 10) (Py.Entero 20) "a"
             (Py.Flotante PrimFloat.two) in
  let b := Py.Articulo.Build (Py.Entero 5) (Py.Entero 5) "b"
             Py.uno_punto_cero in
  let c := Py.Articulo.Build (Py.Entero 3) (Py.Entero 6) "c"
             (Py.Flotante PrimFloat.two) in
  Py.Articulo.init (Py.Entero 10) (Py.Entero 20) "a" = Py.Ok a /\
  Py.Articulo.init (Py.Entero 5) (Py.Entero 5) "b" = Py.Ok b /\
  Py.Articulo.init (Py.Entero 3) (Py.Entero 6) "c" = Py.Ok c /\
  py_sorted Py.mayor_ratio [b; a; c] = [a; c; b] /\
  Py.mochila_bucle [a; c; b] [] (Py.Entero 12) Py.cero_punto_cero
  = Py.mochila_fraccionaria_voraz [b; a; c] (Py.Entero 12).
Proof.
  intros a b c.
  destruct (mochila_orden_de_visita [b; a; c] (Py.Entero 12))
    as [Hs Hu]; [repeat constructor|].
  split; [vm_compute; reflexivity|]. split; [vm_compute; reflexivity|].
  split; [vm_compute; reflexivity|]. split; [vm_compute; reflexivity|].
  apply (Hu [a; c; b]).
  change [a; c; b] with (py_sorted Py.mayor_ratio [b; a; c]).
  exact Hs.
Defined.


(** ** Generated activities *)

Section AleatorioFacts.
Variable rng : Type.
Variable semilla : Z -> rng.
Variable sortear : rng -> Z -> Z -> Z * rng.
Variable mensaje_rango : Z -> Z -> string.

(** What the library promises of [randint(a, b)] when [a <= b]. *)
Hypothesis sortear_rango :
  forall s a b, a <= b -> a <= fst (sortear s a b) <= b.

Local Abbreviation generar :=
  (generar_actividades_aleatorias rng semilla sortear mensaje_rango).

Lemma generar_actividades_bucle_validas tiempo_max k : forall i s actividades,
  1 <= tiempo_max ->
  exists l s',
    generar_actividades_bucle rng sortear mensaje_rango k i tiempo_max s actividades
    = Ok (actividades ++ l, s') /\
    List.length l = k /\
    Forall Actividad.construida l /\
    Forall (fun a => 0 <= inicio a /\ fin a <= tiempo_max) l.
Proof.
  induction k as [|k IH]; intros i s actividades Ht.
  - exists [], s. simpl. rewrite app_nil_r. repeat split; constructor.
  - cbn [generar_actividades_bucle]. unfold randint at 1.
    destruct (Z.ltb_spec (tiempo_max - 1) 0) as [Hlt|_]; [lia|].
    cbn [py_bind].
    pose proof (sortear_rango s 0 (tiempo_max - 1) ltac:(lia)) as H1.
    destruct (sortear s 0 (tiempo_max - 1)) as [ini s1]. cbn [fst] in H1.
    unfold randint at 1.
    destruct (Z.ltb_spec tiempo_max (ini + 1)) as [Hlt|_]; [lia|].
    cbn [py_bind].
    pose proof (sortear_rango s1 (ini + 1) tiempo_max ltac:(lia)) as H2.
    destruct (sortear s1 (ini + 1) tiempo_max) as [f s2]. cbn [fst] in H2.
    set (nombre := ("Actividad " ++ py_str (i + 1))%string).
    assert (Hinit : Actividad.init ini f nombre
                    = Ok (Actividad.Build ini f nombre (f - ini))).
    { unfold Actividad.init. rewrite Z.geb_leb.
      destruct (Z.leb_spec f ini); [lia|reflexivity]. }
    rewrite Hinit. cbn [py_bind].
    destruct (IH (i + 1) s2
                (actividades ++ [Actividad.Build ini f nombre (f - ini)]) Ht)
      as (l & s' & Heq & Hlen & Hc & Hr).
    exists (Actividad.Build ini f nombre (f - ini) :: l), s'.
    rewrite Heq, <- app_assoc. split; [reflexivity|].
    split; [simpl; congruence|]. split; constructor; auto.
    simpl. lia.
Qed.

(** X17. [generar_actividades_aleatorias(n, tiempo_max)], whatever numbers
    [random] draws within the ranges asked of it. With [tiempo_max >= 1]
    it raises nothing and returns [n] activities (none when [n <= 0]),
    each accepted by the constructor, starting at 0 or later and ending by
    [tiempo_max]. With [tiempo_max <= 0] and [n >= 1] the first
    [randint] is asked for an empty range and the function raises
    [ValueError]. With [n <= 0] it returns the empty list. *)
Theorem generar_actividades_aleatorias_validas n tiempo_max :
  (1 <= tiempo_max ->
   exists l s',
     generar n tiempo_max = Ok (l, s') /\
     List.length l = Z.to_nat n /\
     Forall Actividad.construida l /\
     Forall (fun a => 0 <= inicio a /\ fin a <= tiempo_max) l) /\
  (tiempo_max <= 0 -> 1 <= n ->
   generar n tiempo_max = Raise (ValueError (mensaje_rango 0 (tiempo_max - 1)))) /\
  (n <= 0 -> generar n tiempo_max = Ok ([], semilla 42)).
Proof.
  unfold generar_actividades_aleatorias. split; [|split].
  - intro Ht.
    destruct (generar_actividades_bucle_validas tiempo_max (Z.to_nat n) 0
                (semilla 42) [] Ht) as (l & s' & Heq & H).
    exists l, s'. split; [exact Heq|exact H].
  - intros Ht Hn. destruct (Z.to_nat n) as [|k] eqn:E; [lia|].
    simpl. unfold randint.
    destruct (Z.ltb_spec (tiempo_max - 1) 0); [reflexivity|lia].
  - intro Hn. destruct (Z.to_nat n) eqn:E; [reflexivity|lia].
Qed.

(** X18. The selection on generated activities. With [tiempo_max >= 1],
    whatever numbers [random] draws, the activities generated are such
    that [seleccion_actividades_voraz] returns a selection that
    [verificar_sin_traslape] accepts and that is as long as any selection
    without overlap taken from them. *)
Theorem seleccion_de_generadas n tiempo_max :
  1 <= tiempo_max ->
  exists l s',
    generar n tiempo_max = Ok (l, s') /\
    verificar_sin_traslape (seleccion_actividades_voraz l) = true /\
    forall s, subconjunto s l -> verificar_sin_traslape s = true ->
      (List.length s <= List.length (seleccion_actividades_voraz l))%nat.
Proof.
  intro Ht. unfold generar_actividades_aleatorias.
  destruct (generar_actividades_bucle_validas tiempo_max (Z.to_nat n) 0
              (semilla 42) [] Ht) as (l & s' & Heq & _ & Hc & Hr).
  exists l, s'. split; [exact Heq|]. split.
  - apply verificar_sin_traslape_cadena.
    now apply seleccion_actividades_voraz_cadena.
  - intros s Hsub Hs. apply seleccion_cardinal_maximo; try assumption.
    + eapply Forall_impl; [|exact Hc]. intros a Ha. now apply construida_valida.
    + rewrite Forall_forall in *. intros a Ha.
      pose proof (Hr a (subconjunto_In _ _ a Hsub Ha)). lia.
Qed.
End AleatorioFacts.

Lemma generar_actividades_aleatorias_validas_witness :
  let generar :=
    generar_actividades_aleatorias unit (fun _ => tt) (fun s a _ => (a, s))
      (fun _ _ => EmptyString) in
  (exists l s',
     generar 3 10 = Ok (l, s') /\
     List.length l = Z.to_nat 3 /\
     Forall Actividad.construida l /\
     Forall (fun a => 0 <= inicio a /\ fin a <= 10) l) /\
  generar 3 0 = Raise (ValueError EmptyString).
Proof.
  intro generar.
  destruct (generar_actividades_aleatorias_validas unit (fun _ => tt)
              (fun s a _ => (a, s)) (fun _ _ => EmptyString)
              (fun s a b H => conj (Z.le_refl a) H) 3 10) as (H1 & _ & _).
  destruct (generar_actividades_aleatorias_validas unit (fun _ => tt)
              (fun s a _ => (a, s)) (fun _ _ => EmptyString)
              (fun s a b H => conj (Z.le_refl a) H) 3 0) as (_ & H2 & _).
  split; [apply H1; lia|apply H2; lia].
Defined.

Lemma seleccion_de_generadas_witness :
  let generar :=
    generar_actividades_aleatorias unit (fun _ => tt) (fun s a _ => (a, s))
      (fun _ _ => EmptyString) in
  exists l s',
    generar 5 50 = Ok (l, s') /\
    verificar_sin_traslape (seleccion_actividades_voraz l) = true /\
    forall s, subconjunto s l -> verificar_sin_traslape s = true ->
      (List.length s <= List.length (seleccion_actividades_voraz l))%nat.
Proof.
  intro generar.
  apply (seleccion_de_generadas unit (fun _ => tt) (fun s a _ => (a, s))
           (fun _ _ => EmptyString) (fun s a b H => conj (Z.le_refl a) H) 5 50).
  lia.
Defined.
